(** * Task manager: REST routes, API client and page controller

    A shallow embedding of
    - [backend/routes/tasks.js]  (the five Express routes on [/api/tasks]),
    - [frontend/src/services/api.ts] (the axios wrapper [taskService]),
    - [frontend/src/app/page.tsx] (the [Home] component's event handlers),
    together with a model of the storage accessor the routes call
    ([backend/config/database], which wraps the SQL connection pool). *)

From stdpp Require Import base list strings.
From Stdlib Require Import ZArith Lia Ascii Sorted Permutation.

Local Open Scope Z_scope.

(** ** Effects: state passing with exceptions

    Every [await]ed call in the sources may throw; the routes and the page
    handlers wrap their bodies in [try { ... } catch (error) { ... }].  A
    computation over a state [S] either returns a value or throws a message,
    and in both cases leaves a state behind. *)

Inductive Outcome (A : Type) : Type :=
| Ok (a : A)
| Throw (message : string).
Arguments Ok {A} a.
Arguments Throw {A} message.

Definition Eff (S A : Type) : Type := S → Outcome A * S.

Definition eff_ret {S A} (a : A) : Eff S A := λ s, (Ok a, s).

Definition eff_bind {S A B} (f : A → Eff S B) (m : Eff S A) : Eff S B :=
  λ s, match m s with
       | (Ok a, s') => f a s'
       | (Throw e, s') => (Throw e, s')
       end.

Definition throw {S A} (e : string) : Eff S A := λ s, (Throw e, s).

(** [try m catch (error) { h error }] *)
Definition try_catch {S A} (m : Eff S A) (h : string → Eff S A) : Eff S A :=
  λ s, match m s with
       | (Ok a, s') => (Ok a, s')
       | (Throw e, s') => h e s'
       end.

Definition modify {S} (f : S → S) : Eff S unit := λ s, (Ok tt, f s).

#[export] Instance Eff_ret {S} : MRet (Eff S) := @eff_ret S.
#[export] Instance Eff_bind {S} : MBind (Eff S) := @eff_bind S.

(** A handler always answers: the final state when the computation returns,
    and the state at the point of the throw otherwise. *)
Definition final {S A} (r : Outcome A * S) : S := snd r.

(** ** JavaScript values of a request body field

    The request bodies are JSON objects whose properties, by the routes'
    OpenAPI annotations, are strings.  A property can also be missing
    ([undefined] after destructuring) or JSON [null]. *)

Inductive JsVal : Type :=
| undefined
| null
| str (s : string).

#[export] Instance JsVal_eq_dec : EqDecision JsVal.
Proof. solve_decision. Defined.

(** JavaScript truthiness, as used by [!title]: [undefined], [null] and the
    empty string are falsy, every other string is truthy. *)
Definition truthy (v : JsVal) : bool :=
  match v with
  | str (String _ _) => true
  | _ => false
  end.

(** Destructuring with a default, [{ x = d } = obj]: the default applies to a
    missing property only, not to [null]. *)
Definition with_default (d : string) (v : JsVal) : JsVal :=
  match v with
  | undefined => str d
  | _ => v
  end.

Module Body.
(** [{ title, description, status }] as read from [req.body] (and, on the
    client, the [CreateTask] / [Partial<CreateTask>] argument). *)
Record t : Type := Build { title : JsVal; description : JsVal; status : JsVal }.

#[global] Instance eq_dec : EqDecision t.
Proof. solve_decision. Defined.
End Body.

(** ** The [tasks] table and the storage accessor *)

(** A row of [tasks], which is also the JSON [Task] the API returns. *)
Record Task : Type := {
  id : Z;
  title : option string;
  description : option string;
  status : option string;
  created_at : Z;
  updated_at : Z
}.

#[export] Instance Task_eq_dec : EqDecision Task.
Proof. solve_decision. Defined.

(** The five statements the routes send, with their bound parameters. *)
Inductive Stmt : Type :=
| SELECT_all_ORDER_BY_created_at_DESC
| SELECT_WHERE_id (i : Z)
| INSERT (t d s : option string)
| UPDATE (t d s : option string) (i : Z)
| DELETE_WHERE_id (i : Z).

#[export] Instance Stmt_eq_dec : EqDecision Stmt.
Proof. solve_decision. Defined.

(** What [db.execute] resolves to (its first component): a row set for a
    [SELECT], a result header for the other statements. *)
Inductive Reply : Type :=
| RowSet (rs : list Task)
| Header (insert_id : Z) (affected_rows : nat).

Definition rows (r : Reply) : list Task :=
  match r with RowSet rs => rs | Header _ _ => [] end.
Definition insertId (r : Reply) : Z :=
  match r with Header i _ => i | RowSet _ => 0 end.
Definition affectedRows (r : Reply) : nat :=
  match r with Header _ n => n | RowSet _ => 0%nat end.

(** The connection: the table in storage order (rows are appended), the
    auto-increment counter, the server clock that stamps rows, the failures
    the storage layer is about to raise (one entry per coming [execute] call,
    [Some msg] for a call that throws [msg]), and the statements that ran. *)
Record Conn : Type := {
  table : list Task;
  auto_increment : Z;
  clock : Z;
  outages : list (option string);
  journal : list Stmt
}.

#[export] Instance Conn_eq_dec : EqDecision Conn.
Proof. solve_decision. Defined.

(** Modelled from the spec: the storage accessor's parameter binding
    ([backend/config/database] is not among the sources).  Fields that are
    not passed are written as absent/null; JSON [null] is SQL [NULL]. *)
Definition bind_param (v : JsVal) : option string :=
  match v with
  | str s => Some s
  | undefined | null => None
  end.

(** [ORDER BY created_at DESC]: a stable insertion sort of the table, so rows
    with equal [created_at] keep their storage order (the clause itself leaves
    their order open; see [order_by_contract]). *)
Fixpoint insert_desc (r : Task) (l : list Task) : list Task :=
  match l with
  | [] => [r]
  | r' :: l' =>
      if created_at r' <=? created_at r then r :: r' :: l'
      else r' :: insert_desc r l'
  end.

Definition order_by_created_at_desc (l : list Task) : list Task :=
  foldr insert_desc [] l.

Definition newer_or_same (a b : Task) : Prop := created_at b <= created_at a.

(** What the [ORDER BY] clause promises of a result [out] for a table [l]. *)
Definition order_by_contract (l out : list Task) : Prop :=
  Permutation l out ∧ Sorted newer_or_same out.

Definition has_id (i : Z) (r : Task) : Prop := id r = i.

#[export] Instance has_id_dec i r : Decision (has_id i r).
Proof. unfold has_id. apply _. Defined.

(** [UPDATE tasks SET title = ?, description = ?, status = ? WHERE id = ?]
    on one row.  Modelled from the spec: [created_at] is never modified and
    [updated_at] is refreshed whenever a mutable field changes. *)
Definition set_fields (now : Z) (t d s : option string) (i : Z) (r : Task) : Task :=
  if decide (has_id i r) then
    {| id := id r; title := t; description := d; status := s;
       created_at := created_at r;
       updated_at :=
         if decide ((title r, description r, status r) = (t, d, s))
         then updated_at r else now |}
  else r.

(** Modelled from the spec: the SQL engine behind the storage accessor, as
    an opaque [execute(query, params) → rows] capability; ids are assigned by
    storage on creation and both timestamps are set at creation. *)
Definition run_stmt (q : Stmt) (c : Conn) : Reply * Conn :=
  match q with
  | SELECT_all_ORDER_BY_created_at_DESC =>
      (RowSet (order_by_created_at_desc (table c)), c)
  | SELECT_WHERE_id i =>
      (RowSet (filter (has_id i) (table c)), c)
  | INSERT t d s =>
      let r := {| id := auto_increment c; title := t; description := d;
                  status := s; created_at := clock c; updated_at := clock c |} in
      (Header (auto_increment c) 1,
       {| table := table c ++ [r]; auto_increment := auto_increment c + 1;
          clock := clock c; outages := outages c; journal := journal c |})
  | UPDATE t d s i =>
      (Header 0 (length (filter (has_id i) (table c))),
       {| table := set_fields (clock c) t d s i <$> table c;
          auto_increment := auto_increment c;
          clock := clock c; outages := outages c; journal := journal c |})
  | DELETE_WHERE_id i =>
      (Header 0 (length (filter (has_id i) (table c))),
       {| table := filter (λ r, ¬ has_id i r) (table c);
          auto_increment := auto_increment c;
          clock := clock c; outages := outages c; journal := journal c |})
  end.

Definition pop_outage (c : Conn) : Conn :=
  {| table := table c; auto_increment := auto_increment c; clock := clock c;
     outages := tail (outages c); journal := journal c |}.

Definition log_stmt (q : Stmt) (c : Conn) : Conn :=
  {| table := table c; auto_increment := auto_increment c; clock := clock c;
     outages := outages c; journal := journal c ++ [q] |}.

(** [await db.execute(sql, params)]: throws when the storage layer fails,
    otherwise runs the statement and records it. *)
Definition execute (q : Stmt) : Eff Conn Reply :=
  λ c, match head (outages c) with
       | Some (Some msg) => (Throw msg, pop_outage c)
       | _ => let '(r, c') := run_stmt q (pop_outage c) in (Ok r, log_stmt q c')
       end.

(** ** [backend/routes/tasks.js] *)

(** JSON bodies the routes send. *)
Inductive Json : Type :=
| JTasks (l : list Task)
| JTask (t : Task)
| JUndefined
| JError (error : string)
| JMessage (message : string).

#[export] Instance Json_eq_dec : EqDecision Json.
Proof. solve_decision. Defined.

Record Response : Type := { code : Z; data : Json }.

#[export] Instance Response_eq_dec : EqDecision Response.
Proof. solve_decision. Defined.

(** [res.json(x)] answers with status 200, [res.status(n).json(x)] with [n]. *)
Definition res_json (x : Json) : Response := {| code := 200; data := x |}.
Definition res_status_json (n : Z) (x : Json) : Response := {| code := n; data := x |}.

(** [rows[0]]: the first row, or [undefined] for an empty row set. *)
Definition first_row (rs : list Task) : Json :=
  match rs with
  | r :: _ => JTask r
  | [] => JUndefined
  end.

(** The common [catch (error) { res.status(500).json({ error: error.message }) }]. *)
Definition catch_500 (m : Eff Conn Response) : Eff Conn Response :=
  try_catch m (λ error, mret (res_status_json 500 (JError error))).

Module Routes.

(** [router.get('/')] *)
Definition get_root : Eff Conn Response :=
  catch_500 (
    r ← execute SELECT_all_ORDER_BY_created_at_DESC;
    mret (res_json (JTasks (rows r)))).

(** [router.get('/:id')] *)
Definition get_id (params_id : Z) : Eff Conn Response :=
  catch_500 (
    r ← execute (SELECT_WHERE_id params_id);
    if decide (length (rows r) = 0%nat) then
      mret (res_status_json 404 (JError "Task not found"))
    else
      mret (res_json (first_row (rows r)))).

(** [router.post('/')] *)
Definition post_root (body : Body.t) : Eff Conn Response :=
  catch_500 (
    let title := Body.title body in
    let description := Body.description body in
    let status := with_default "pending" (Body.status body) in
    if negb (truthy title) then
      mret (res_status_json 400 (JError "Title is required"))
    else
      result ← execute (INSERT (bind_param title) (bind_param description)
                               (bind_param status));
      newTask ← execute (SELECT_WHERE_id (insertId result));
      mret (res_status_json 201 (first_row (rows newTask)))).

(** [router.put('/:id')] *)
Definition put_id (params_id : Z) (body : Body.t) : Eff Conn Response :=
  catch_500 (
    let title := Body.title body in
    let description := Body.description body in
    let status := Body.status body in
    let taskId := params_id in
    result ← execute (UPDATE (bind_param title) (bind_param description)
                             (bind_param status) taskId);
    if decide (affectedRows result = 0%nat) then
      mret (res_status_json 404 (JError "Task not found"))
    else
      updatedTask ← execute (SELECT_WHERE_id taskId);
      mret (res_json (first_row (rows updatedTask)))).

(** [router.delete('/:id')] *)
Definition delete_id (params_id : Z) : Eff Conn Response :=
  catch_500 (
    result ← execute (DELETE_WHERE_id params_id);
    if decide (affectedRows result = 0%nat) then
      mret (res_status_json 404 (JError "Task not found"))
    else
      mret (res_json (JMessage "Task deleted successfully"))).

End Routes.

(** ** [frontend/src/services/api.ts] over the wire *)

(** The requests [taskService] issues against [/api/tasks]. *)
Inductive Request : Type :=
| GET_tasks
| GET_task (i : Z)
| POST_tasks (body : Body.t)
| PUT_task (i : Z) (body : Body.t)
| DELETE_task (i : Z).

#[export] Instance Request_eq_dec : EqDecision Request.
Proof. solve_decision. Defined.

(** [app.use('/api/tasks', require('./routes/tasks'))] in [server.js]. *)
Definition serve (r : Request) : Eff Conn Response :=
  match r with
  | GET_tasks => Routes.get_root
  | GET_task i => Routes.get_id i
  | POST_tasks b => Routes.post_root b
  | PUT_task i b => Routes.put_id i b
  | DELETE_task i => Routes.delete_id i
  end.

(** The network as the browser sees it: the server behind it, the requests
    issued so far, and whether the server can be reached at all. *)
Record Net : Type := {
  backend : Conn;
  wire : list Request;
  offline : bool
}.

Definition sent (r : Request) (n : Net) : Net :=
  {| backend := backend n; wire := wire n ++ [r]; offline := offline n |}.

Definition with_backend (c : Conn) (n : Net) : Net :=
  {| backend := c; wire := wire n; offline := offline n |}.

(** An axios call resolves with the response body on a 2xx status and
    rejects otherwise (no response, or a status outside 200..299). *)
Definition axios (r : Request) : Eff Net Json :=
  λ n, let n := sent r n in
       if offline n then (Throw "Network Error", n)
       else
         match serve r (backend n) with
         | (Ok resp, c') =>
             if bool_decide (200 <= code resp < 300)
             then (Ok (data resp), with_backend c' n)
             else (Throw "Request failed", with_backend c' n)
         | (Throw e, c') => (Throw e, with_backend c' n)
         end.

(** [response.data] read at the type [Task] the service promises.  The
    routes answer 2xx to [POST] and [PUT] with a task only
    (see [post_2xx_is_task], [put_2xx_is_task]); any other body is treated as
    a failed call. *)
Definition as_task (j : Json) : Eff Net Task :=
  match j with
  | JTask t => mret t
  | _ => throw "Malformed response"
  end.

Definition as_tasks (j : Json) : Eff Net (list Task) :=
  match j with
  | JTasks l => mret l
  | _ => throw "Malformed response"
  end.

Module taskService.

Definition getTasks : Eff Net (list Task) :=
  response_data ← axios GET_tasks; as_tasks response_data.

Definition getTask (i : Z) : Eff Net Task :=
  response_data ← axios (GET_task i); as_task response_data.

Definition createTask (task : Body.t) : Eff Net Task :=
  response_data ← axios (POST_tasks task); as_task response_data.

Definition updateTask (i : Z) (task : Body.t) : Eff Net Task :=
  response_data ← axios (PUT_task i task); as_task response_data.

Definition deleteTask (i : Z) : Eff Net unit :=
  _ ← axios (DELETE_task i); mret tt.

End taskService.

(** ** [frontend/src/app/page.tsx] *)

(** Modelled from the spec: the [status] union of [@/types/task]
    (the enumeration pending, in-progress, completed). *)
Inductive TaskStatus : Type := pending | in_progress | completed.

Definition status_text (s : TaskStatus) : string :=
  match s with
  | pending => "pending"
  | in_progress => "in-progress"
  | completed => "completed"
  end.

(** The component state, one field per [useState]. *)
Record Home : Type := {
  tasks : list Task;
  loading : bool;
  error : option string;
  showForm : bool;
  editingTask : option Task
}.

#[export] Instance Home_eq_dec : EqDecision Home.
Proof. solve_decision. Defined.

(** What a handler can touch: the component state and the network. *)
Record World : Type := { home : Home; net : Net }.

Definition on_home (f : Home → Home) : Eff World unit :=
  modify (λ w, {| home := f (home w); net := net w |}).

Definition setTasks (v : list Task) : Eff World unit :=
  on_home (λ h, {| tasks := v; loading := loading h; error := error h;
                   showForm := showForm h; editingTask := editingTask h |}).
Definition setLoading (v : bool) : Eff World unit :=
  on_home (λ h, {| tasks := tasks h; loading := v; error := error h;
                   showForm := showForm h; editingTask := editingTask h |}).
Definition setError (v : option string) : Eff World unit :=
  on_home (λ h, {| tasks := tasks h; loading := loading h; error := v;
                   showForm := showForm h; editingTask := editingTask h |}).
Definition setShowForm (v : bool) : Eff World unit :=
  on_home (λ h, {| tasks := tasks h; loading := loading h; error := error h;
                   showForm := v; editingTask := editingTask h |}).
Definition setEditingTask (v : option Task) : Eff World unit :=
  on_home (λ h, {| tasks := tasks h; loading := loading h; error := error h;
                   showForm := showForm h; editingTask := v |}).

(** [await taskService.f(...)]: the call acts on the network only. *)
Definition await {A} (m : Eff Net A) : Eff World A :=
  λ w, let '(r, n') := m (net w) in (r, {| home := home w; net := n' |}).

(** [try { m } catch (err) { h } finally { f }] where [h] does not throw. *)
Definition try_catch_finally {S A} (m : Eff S A) (h : string → Eff S A)
    (f : Eff S unit) : Eff S A :=
  a ← try_catch m h; f;; mret a.

Module Page.
Section Handlers.

(** The handlers are closures of one render: they read the state values
    of that render, and [window.confirm] answers the blocking prompt. *)
Variable render : Home.
Variable confirm : string → bool.

Definition loadTasks : Eff World unit :=
  try_catch_finally
    (setLoading true;;
     data ← await taskService.getTasks;
     setTasks data)
    (λ err, setError (Some "Failed to load tasks"))
    (setLoading false).

Definition handleCreateTask (taskData : Body.t) : Eff World unit :=
  try_catch
    (newTask ← await (taskService.createTask taskData);
     setTasks (newTask :: tasks render);;
     setShowForm false)
    (λ err, setError (Some "Failed to create task")).

Definition handleEditTask (taskData : Body.t) : Eff World unit :=
  match editingTask render with
  | None => mret tt
  | Some editing =>
      try_catch
        (updatedTask ← await (taskService.updateTask (id editing) taskData);
         setTasks ((λ task, if decide (id task = id editing)
                            then updatedTask else task) <$> tasks render);;
         setEditingTask None;;
         setShowForm false)
        (λ err, setError (Some "Failed to update task"))
  end.

Definition handleDeleteTask (i : Z) : Eff World unit :=
  if negb (confirm "Are you sure you want to delete this task?") then mret tt
  else
    try_catch
      (await (taskService.deleteTask i);;
       setTasks (filter (λ task, id task ≠ i) (tasks render)))
      (λ err, setError (Some "Failed to delete task")).

Definition handleStatusChange (i : Z) (status : TaskStatus) : Eff World unit :=
  try_catch
    (updatedTask ← await (taskService.updateTask i
         (Body.Build undefined undefined (str (status_text status))));
     setTasks ((λ task, if decide (id task = i)
                        then updatedTask else task) <$> tasks render))
    (λ err, setError (Some "Failed to update task status")).

Definition openEditForm (task : Task) : Eff World unit :=
  setEditingTask (Some task);; setShowForm true.

Definition closeForm : Eff World unit :=
  setShowForm false;; setEditingTask None.

End Handlers.
End Page.

(** An event fires a handler of the current render. *)
Definition fire (handler : Home → Eff World unit) (w : World) : World :=
  final (handler (home w) w).

(** The JSX wiring of [Home]: which handler each user intent reaches.  The
    form submits to [handleEditTask] while an editing target is set and to
    [handleCreateTask] otherwise. *)
Inductive Event : Type :=
| Mount
| ToggleForm
| FormSubmit (taskData : Body.t)
| FormCancel
| CardEdit (task : Task)
| CardDelete (i : Z)
| CardStatusChange (i : Z) (status : TaskStatus).

Definition dispatch (confirm : string → bool) (e : Event) (render : Home)
    : Eff World unit :=
  match e with
  | Mount => Page.loadTasks
  | ToggleForm => setShowForm (negb (showForm render))
  | FormSubmit taskData =>
      match editingTask render with
      | Some _ => Page.handleEditTask render taskData
      | None => Page.handleCreateTask render taskData
      end
  | FormCancel => Page.closeForm
  | CardEdit task => Page.openEditForm task
  | CardDelete i => Page.handleDeleteTask render confirm i
  | CardStatusChange i status => Page.handleStatusChange render i status
  end.

(** ** Predicates of the specification *)

(** No storage failure during the next [n] calls of [execute]. *)
Fixpoint quiet (n : nat) (o : list (option string)) : Prop :=
  match n with
  | O => True
  | S n' =>
      match o with
      | [] => True
      | None :: o' => quiet n' o'
      | Some _ :: _ => False
      end
  end.

(** Storage assigns ids from a counter that is ahead of every stored id. *)
Definition storage_ok (c : Conn) : Prop :=
  1 <= auto_increment c ∧
  Forall (λ r, 1 <= id r < auto_increment c) (table c) ∧
  NoDup (id <$> table c).

(** The data-model invariants of a persisted task: a non-empty title and
    one of the three enumerated statuses. *)
Definition nonempty_title (r : Task) : bool :=
  match title r with
  | Some (String _ _) => true
  | _ => false
  end.

Definition enumerated_status (r : Task) : bool :=
  match status r with
  | Some s => bool_decide (s ∈ status_text <$> [pending; in_progress; completed])
  | None => false
  end.

Definition task_valid (r : Task) : bool := nonempty_title r && enumerated_status r.

Definition data_model_ok (c : Conn) : Prop := Forall (λ r, task_valid r = true) (table c).

(** The environment moves the server clock between requests. *)
Definition at_time (now : Z) (c : Conn) : Conn :=
  {| table := table c; auto_increment := auto_increment c; clock := now;
     outages := outages c; journal := journal c |}.

(** A server that has just been set up: an empty table. *)
Definition fresh : Conn :=
  {| table := []; auto_increment := 1; clock := 0; outages := []; journal := [] |}.

(** What is persisted, as opposed to the environment and the trace. *)
Definition stored (c : Conn) : list Task * Z := (table c, auto_increment c).

(** ** Rows and connections named by the statements below *)

(** The row an [INSERT] of this body stores. *)
Definition new_row (c : Conn) (body : Body.t) : Task :=
  {| id := auto_increment c;
     title := bind_param (Body.title body);
     description := bind_param (Body.description body);
     status := bind_param (with_default "pending" (Body.status body));
     created_at := clock c; updated_at := clock c |}.

Definition insert_stmt (body : Body.t) : Stmt :=
  INSERT (bind_param (Body.title body)) (bind_param (Body.description body))
         (bind_param (with_default "pending" (Body.status body))).

Definition update_stmt (i : Z) (body : Body.t) : Stmt :=
  UPDATE (bind_param (Body.title body)) (bind_param (Body.description body))
         (bind_param (Body.status body)) i.

(** The row an [UPDATE] with this body leaves in place of [r]. *)
Definition updated_row (c : Conn) (i : Z) (body : Body.t) (r : Task) : Task :=
  set_fields (clock c) (bind_param (Body.title body))
    (bind_param (Body.description body)) (bind_param (Body.status body)) i r.

(** The connection a successful create leaves behind. *)
Definition created (c : Conn) (body : Body.t) : Conn :=
  {| table := table c ++ [new_row c body];
     auto_increment := auto_increment c + 1;
     clock := clock c;
     outages := drop 2 (outages c);
     journal := journal c ++ [insert_stmt body; SELECT_WHERE_id (auto_increment c)] |}.

(** ** Sample requests and stores

    The scenario of the specification: POST [{title: "Buy milk"}], then
    PUT a status, then DELETE. *)

Definition milk : Body.t := Body.Build (str "Buy milk") undefined undefined.

(** The body [{ status }] of the status-change shortcut. *)
Definition only_status (s : TaskStatus) : Body.t :=
  Body.Build undefined undefined (str (status_text s)).

Definition milk_store : Conn := created fresh milk.

(** An update that supplies all three fields, the title being the empty
    string. *)
Definition blank_title_update : Body.t :=
  Body.Build (str EmptyString) (str "2 litres") (str "completed").

(** The page once it has loaded the one task of [milk_store]. *)
Definition milk_world : World :=
  {| home := {| tasks := table milk_store; loading := false; error := None;
                showForm := false; editingTask := None |};
     net := {| backend := milk_store; wire := []; offline := false |} |}.

Definition titled (s : string) : Body.t := Body.Build (str s) undefined undefined.

(** Three creates in a row while the server clock reads the same instant. *)
Definition same_tick_store : Conn :=
  final (Routes.post_root (titled "T3")
    (final (Routes.post_root (titled "T2")
      (final (Routes.post_root (titled "T1") fresh))))).

Definition pending_row (i : Z) (s : string) (at_ : Z) : Task :=
  {| id := i; title := Some s; description := None; status := Some "pending";
     created_at := at_; updated_at := at_ |}.



(** ** Environments and runs *)

(** The status codes each route documents in its OpenAPI block, together
    with the 500 of its [catch]. *)
Definition documented_codes (r : Request) : list Z :=
  match r with
  | GET_tasks => [200; 500]
  | GET_task _ => [200; 404; 500]
  | POST_tasks _ => [201; 400; 500]
  | PUT_task _ _ => [200; 404; 500]
  | DELETE_task _ => [200; 404; 500]
  end.

(** The environment decides which of the coming storage calls fail. *)
Definition with_outages (o : list (option string)) (c : Conn) : Conn :=
  {| table := table c; auto_increment := auto_increment c; clock := clock c;
     outages := o; journal := journal c |}.

(** A request arriving at the server: the clock reading and the storage
    failures of that moment, then the route. *)
Record Arrival : Type := {
  arrives_at : Z;
  failing : list (option string);
  request : Request
}.

Definition arrive (c : Conn) (a : Arrival) : Conn :=
  final (serve (request a) (with_outages (failing a) (at_time (arrives_at a) c))).

Definition serve_all (arrivals : list Arrival) (c : Conn) : Conn :=
  foldl arrive c arrivals.

(** A user intent reaching the page: the server clock at that moment, the
    answer the user gives should a confirmation prompt appear, and the
    event. *)
Record Step : Type := {
  step_at : Z;
  answer : bool;
  event : Event
}.

Definition tick (now : Z) (w : World) : World :=
  {| home := home w;
     net := with_backend (at_time now (backend (net w))) (net w) |}.

(** What is on screen and what lies behind it.  The handlers the user can
    reach are those of the render on screen: closures over the state values
    of that render ([tasks], [editingTask], [showForm]).  A handler's
    [set...] calls change the state behind; the screen, and with it the
    closures, follows only when React renders again. *)
Record Screen : Type := { shown : Home; world : World }.

(** React renders the current state, or the user acts on what is on screen.
    An action runs its handler, request and response, on the render it was
    fired from: two actions with no render in between are two handlers of
    one render, each calling [setTasks] on that render's [tasks]. *)
Inductive Move : Type :=
| Paint
| Act (s : Step).

Definition paint (sc : Screen) : Screen :=
  {| shown := home (world sc); world := world sc |}.

Definition act (s : Step) (sc : Screen) : Screen :=
  {| shown := shown sc;
     world := final (dispatch (λ _, answer s) (event s) (shown sc)
                              (tick (step_at s) (world sc))) |}.

Definition move (sc : Screen) (m : Move) : Screen :=
  match m with
  | Paint => paint sc
  | Act s => act s sc
  end.

Definition play (moves : list Move) (sc : Screen) : Screen := foldl move sc moves.

(** A page that shows its current state. *)
Definition painted (w : World) : Screen := {| shown := home w; world := w |}.

(** One event on a page that shows its current state. *)
Definition step (w : World) (s : Step) : World :=
  fire (dispatch (λ _, answer s) (event s)) (tick (step_at s) w).

(** The settled schedule: React has rendered before each event, so every
    handler is a closure of the state the previous handler left. *)
Definition settled (steps : list Step) : list Move :=
  steps ≫= λ s, [Paint; Act s].

Definition run (steps : list Step) (w : World) : World :=
  world (play (settled steps) (painted w)).

(** In a schedule, every action fires on a freshly rendered page
    ([fresh] tells whether the page has rendered since the last action). *)
Fixpoint fires_fresh (fresh : bool) (moves : list Move) : Prop :=
  match moves with
  | [] => True
  | Paint :: rest => fires_fresh true rest
  | Act _ :: rest => fresh = true ∧ fires_fresh false rest
  end.


(** The page shows what the server stores: the server is reachable, storage
    is well formed and will not fail, and the in-memory list holds exactly
    the stored rows. *)
Definition synced (w : World) : Prop :=
  offline (net w) = false ∧
  outages (backend (net w)) = [] ∧
  storage_ok (backend (net w)) ∧
  tasks (home w) ≡ₚ table (backend (net w)).

(** A page that has not loaded yet, in front of a given server. *)
Definition page_before_mount (c : Conn) : World :=
  {| home := {| tasks := []; loading := true; error := None;
                showForm := false; editingTask := None |};
     net := {| backend := c; wire := []; offline := false |} |}.

(** The fixed banner texts of the five [catch] blocks. *)
Definition banners : list string :=
  ["Failed to load tasks"; "Failed to create task"; "Failed to update task";
   "Failed to delete task"; "Failed to update task status"].

(** The requests an event is expected to put on the wire, given the render
    it fires in and the answer to the confirmation prompt. *)
Definition requests_of (confirmed : bool) (e : Event) (render : Home)
    : list Request :=
  match e with
  | Mount => [GET_tasks]
  | FormSubmit taskData =>
      match editingTask render with
      | Some editing => [PUT_task (id editing) taskData]
      | None => [POST_tasks taskData]
      end
  | CardDelete i => if confirmed then [DELETE_task i] else []
  | CardStatusChange i s => [PUT_task i (only_status s)]
  | ToggleForm | FormCancel | CardEdit _ => []
  end.



(** A session on the page in front of [milk_store]: mount, add "Bread", mark
    task 1 completed, decline to delete task 2, delete task 1; React renders
    between any two actions. *)
Definition shopping_session : list Move :=
  [ Act {| step_at := 1; answer := true; event := Mount |}; Paint;
    Act {| step_at := 2; answer := true; event := FormSubmit (titled "Bread") |}; Paint;
    Act {| step_at := 3; answer := true; event := CardStatusChange 1 completed |}; Paint;
    Act {| step_at := 4; answer := false; event := CardDelete 2 |}; Paint;
    Act {| step_at := 5; answer := true; event := CardDelete 1 |} ].

(** The page showing the two tasks "Buy milk" (1) and "Bread" (2). *)
Definition two_task_world : World :=
  {| home := {| tasks := order_by_created_at_desc
                           (table (created milk_store (titled "Bread")));
                loading := false; error := None;
                showForm := false; editingTask := None |};
     net := {| backend := created milk_store (titled "Bread");
               wire := []; offline := false |} |}.
(** * Proofs *)

(** ** Storage lemmas *)

Lemma quiet_le n m o : (m ≤ n)%nat → quiet n o → quiet m o.
Proof.
  revert m o. induction n as [|n IH]; intros m o Hle Hq.
  - assert (m = 0%nat) as -> by lia. exact I.
  - destruct m as [|m]; [exact I|].
    destruct o as [|[msg|] o]; simpl in *; try done.
    apply IH; [lia|done].
Qed.

Lemma quiet_drop n k o : quiet (k + n) o → quiet n (drop k o).
Proof.
  revert o. induction k as [|k IH]; intros o Hq; [done|].
  destruct o as [|[msg|] o]; simpl in *; try done.
  - by destruct n.
  - by apply IH.
Qed.

Lemma execute_quiet q c :
  quiet 1 (outages c) →
  execute q c = (Ok (run_stmt q (pop_outage c)).1,
                 log_stmt q (run_stmt q (pop_outage c)).2).
Proof.
  intros Hq. unfold execute.
  destruct (outages c) as [|[msg|] o] eqn:Ho; simpl in *; try done;
    by destruct (run_stmt q (pop_outage c)).
Qed.

Lemma execute_outage q c msg o :
  outages c = Some msg :: o → execute q c = (Throw msg, pop_outage c).
Proof. intros Ho. unfold execute. by rewrite Ho. Qed.

Lemma quiet_tail n o : quiet (S n) o → quiet n (tail o).
Proof. destruct o as [|[msg|] o]; simpl; try done. by destruct n. Qed.

Lemma quiet_head n o : quiet (S n) o → quiet 1 o.
Proof. apply quiet_le. lia. Qed.

(** ** The routes, statement by statement *)

Ltac route_unfold :=
  unfold Routes.get_root, Routes.get_id, Routes.post_root, Routes.put_id,
    Routes.delete_id, catch_500, try_catch, mbind, Eff_bind, eff_bind.

Lemma get_root_quiet c :
  quiet 1 (outages c) →
  Routes.get_root c =
    (Ok (res_json (JTasks (order_by_created_at_desc (table c)))),
     log_stmt SELECT_all_ORDER_BY_created_at_DESC (pop_outage c)).
Proof. intros Hq. route_unfold. by rewrite execute_quiet. Qed.

Lemma get_id_quiet i c :
  quiet 1 (outages c) →
  Routes.get_id i c =
    (Ok (match filter (has_id i) (table c) with
         | [] => res_status_json 404 (JError "Task not found")
         | r :: _ => res_json (JTask r)
         end),
     log_stmt (SELECT_WHERE_id i) (pop_outage c)).
Proof.
  intros Hq. route_unfold. rewrite execute_quiet by done. simpl.
  by destruct (filter (has_id i) (table c)).
Qed.

Lemma post_root_falsy body c :
  truthy (Body.title body) = false →
  Routes.post_root body c =
    (Ok (res_status_json 400 (JError "Title is required")), c).
Proof. intros Ht. route_unfold. by rewrite Ht. Qed.

Lemma post_root_quiet body c :
  truthy (Body.title body) = true →
  quiet 2 (outages c) →
  Routes.post_root body c =
    (Ok (res_status_json 201
           (first_row (filter (has_id (auto_increment c))
                              (table c ++ [new_row c body])))),
     {| table := table c ++ [new_row c body];
        auto_increment := auto_increment c + 1;
        clock := clock c;
        outages := tail (tail (outages c));
        journal := (journal c ++ [insert_stmt body])
                     ++ [SELECT_WHERE_id (auto_increment c)] |}).
Proof.
  intros Ht Hq. route_unfold. rewrite Ht. simpl.
  rewrite execute_quiet by (by eapply quiet_head). simpl.
  rewrite execute_quiet by (by apply quiet_tail in Hq). by simpl.
Qed.

Lemma put_id_quiet i body c :
  quiet 2 (outages c) →
  Routes.put_id i body c =
    if decide (length (filter (has_id i) (table c)) = 0%nat) then
      (Ok (res_status_json 404 (JError "Task not found")),
       {| table := updated_row c i body <$> table c;
          auto_increment := auto_increment c;
          clock := clock c;
          outages := tail (outages c);
          journal := journal c ++ [update_stmt i body] |})
    else
      (Ok (res_json (first_row (filter (has_id i)
                                  (updated_row c i body <$> table c)))),
       {| table := updated_row c i body <$> table c;
          auto_increment := auto_increment c;
          clock := clock c;
          outages := tail (tail (outages c));
          journal := (journal c ++ [update_stmt i body])
                       ++ [SELECT_WHERE_id i] |}).
Proof.
  intros Hq. route_unfold.
  rewrite execute_quiet by (by eapply quiet_head). simpl.
  case_decide; [done|].
  rewrite execute_quiet by (by apply quiet_tail in Hq). by simpl.
Qed.

Lemma delete_id_quiet i c :
  quiet 1 (outages c) →
  Routes.delete_id i c =
    (Ok (if decide (length (filter (has_id i) (table c)) = 0%nat)
         then res_status_json 404 (JError "Task not found")
         else res_json (JMessage "Task deleted successfully")),
     {| table := filter (λ r, ¬ has_id i r) (table c);
        auto_increment := auto_increment c;
        clock := clock c;
        outages := tail (outages c);
        journal := journal c ++ [DELETE_WHERE_id i] |}).
Proof.
  intros Hq. route_unfold. rewrite execute_quiet by done. simpl.
  by case_decide.
Qed.

(** ** Rows by id *)

Lemma filter_has_id_nil i (l : list Task) :
  filter (has_id i) l = [] ↔ i ∉ id <$> l.
Proof.
  induction l as [|r l IH]; simpl.
  - split; [intros _; apply not_elem_of_nil|done].
  - rewrite filter_cons, not_elem_of_cons. unfold has_id at 1.
    case_decide; split; try done.
    + intros [Hne _]. by subst.
    + intros Hnil. split; [congruence|by apply IH].
    + intros [_ Hnotin]. by apply IH.
Qed.

Lemma filter_has_id_length i (l : list Task) :
  length (filter (has_id i) l) = 0%nat ↔ i ∉ id <$> l.
Proof. rewrite <- filter_has_id_nil. by destruct (filter (has_id i) l). Qed.

Lemma filter_has_id_unique i r (l : list Task) :
  NoDup (id <$> l) → r ∈ l → id r = i → filter (has_id i) l = [r].
Proof.
  induction l as [|r' l IH]; intros Hnd Hin Hid.
  - by apply elem_of_nil in Hin.
  - rewrite fmap_cons in Hnd. apply NoDup_cons in Hnd as [Hnotin Hnd].
    rewrite filter_cons. apply elem_of_cons in Hin as [->|Hin].
    + rewrite decide_True by done. f_equal.
      apply filter_has_id_nil. by rewrite <- Hid.
    + rewrite decide_False; [by apply IH|].
      unfold has_id. intros Heq. apply Hnotin. rewrite Heq, <- Hid.
      by apply list_elem_of_fmap_2.
Qed.

Lemma set_fields_id now t d s i r : id (set_fields now t d s i r) = id r.
Proof. unfold set_fields. by case_decide. Qed.

Lemma set_fields_created_at now t d s i r :
  created_at (set_fields now t d s i r) = created_at r.
Proof. unfold set_fields. by case_decide. Qed.

Lemma set_fields_hit now t d s r :
  title (set_fields now t d s (id r) r) = t ∧
  description (set_fields now t d s (id r) r) = d ∧
  status (set_fields now t d s (id r) r) = s.
Proof. unfold set_fields. by rewrite decide_True. Qed.

Lemma set_fields_miss now t d s i r : id r ≠ i → set_fields now t d s i r = r.
Proof. intros Hne. unfold set_fields. by rewrite decide_False. Qed.

Lemma fmap_set_fields_ids now t d s i (l : list Task) :
  id <$> (set_fields now t d s i <$> l) = id <$> l.
Proof.
  rewrite <- list_fmap_compose. apply list_fmap_ext.
  intros k r _. apply set_fields_id.
Qed.

Lemma filter_fmap_set_fields now t d s i (l : list Task) :
  filter (has_id i) (set_fields now t d s i <$> l)
  = set_fields now t d s i <$> filter (has_id i) l.
Proof.
  induction l as [|r l IH]; [done|].
  rewrite fmap_cons. destruct (decide (has_id i r)) as [Hr|Hr].
  - rewrite !filter_cons_True, fmap_cons, IH; try done.
    unfold has_id. by rewrite set_fields_id.
  - rewrite !filter_cons_False, IH; try done.
    unfold has_id. by rewrite set_fields_id.
Qed.

Lemma filter_others_set_fields now t d s i (l : list Task) :
  filter (λ r, ¬ has_id i r) (set_fields now t d s i <$> l)
  = filter (λ r, ¬ has_id i r) l.
Proof.
  induction l as [|r l IH]; [done|].
  rewrite fmap_cons. destruct (decide (has_id i r)) as [Hr|Hr].
  - rewrite !filter_cons_False, IH; try done; intros Hn; apply Hn; [done|].
    unfold has_id. by rewrite set_fields_id.
  - rewrite set_fields_miss by done.
    by rewrite !filter_cons_True, IH.
Qed.

(** ** [ORDER BY created_at DESC] *)

Lemma order_by_cons r l :
  order_by_created_at_desc (r :: l) = insert_desc r (order_by_created_at_desc l).
Proof. done. Qed.

Lemma insert_desc_perm r l : Permutation (r :: l) (insert_desc r l).
Proof.
  induction l as [|r' l IH]; simpl; [done|].
  destruct (created_at r' <=? created_at r); [done|].
  rewrite perm_swap. by constructor.
Qed.

Lemma order_by_perm l : Permutation l (order_by_created_at_desc l).
Proof.
  induction l as [|r l IH]; simpl; [done|].
  rewrite <- insert_desc_perm. by constructor.
Qed.

Lemma insert_desc_hd r l a :
  newer_or_same a r → HdRel newer_or_same a l →
  HdRel newer_or_same a (insert_desc r l).
Proof.
  intros Har Hal. destruct l as [|r' l]; simpl; [by constructor|].
  destruct (created_at r' <=? created_at r); constructor; [done|].
  by inversion Hal.
Qed.

Lemma insert_desc_sorted r l :
  Sorted newer_or_same l → Sorted newer_or_same (insert_desc r l).
Proof.
  induction l as [|r' l IH]; intros Hs; simpl.
  - by repeat constructor.
  - destruct (created_at r' <=? created_at r) eqn:Hle.
    + constructor; [done|]. constructor. unfold newer_or_same. lia.
    + inversion Hs as [|? ? Hs' Hhd]; subst.
      constructor; [by apply IH|].
      apply insert_desc_hd; [|done]. unfold newer_or_same. lia.
Qed.

Lemma order_by_sorted l : Sorted newer_or_same (order_by_created_at_desc l).
Proof.
  induction l as [|r l IH]; simpl; [constructor|].
  by apply insert_desc_sorted.
Qed.

Lemma order_by_meets_contract l :
  order_by_contract l (order_by_created_at_desc l).
Proof. split; [apply order_by_perm|apply order_by_sorted]. Qed.

(** A row stamped later than every stored row is listed first. *)
Lemma order_by_app_newest l t :
  Forall (λ r, created_at r < created_at t) l →
  order_by_created_at_desc (l ++ [t]) = t :: order_by_created_at_desc l.
Proof.
  induction 1 as [|r l Hr Hl IH]; [done|].
  rewrite <- app_comm_cons, !order_by_cons, IH. simpl.
  destruct (created_at t <=? created_at r) eqn:Hle; [lia|done].
Qed.

(** ** Creating a task on well-formed storage *)

Lemma tail_tail_drop {A} (o : list A) : tail (tail o) = drop 2 o.
Proof. by destruct o as [|? [|? ?]]. Qed.

Lemma storage_ok_fresh_id c : storage_ok c → auto_increment c ∉ id <$> table c.
Proof.
  intros (_ & Hids & _) Hin.
  apply list_elem_of_fmap in Hin as (r & Heq & Hr).
  rewrite Forall_forall in Hids. specialize (Hids r Hr). lia.
Qed.

Lemma post_root_created body c :
  storage_ok c →
  truthy (Body.title body) = true →
  quiet 2 (outages c) →
  Routes.post_root body c =
    (Ok (res_status_json 201 (JTask (new_row c body))), created c body).
Proof.
  intros Hok Ht Hq. rewrite post_root_quiet by done.
  rewrite filter_app, filter_cons_True, filter_nil by done.
  rewrite (proj2 (filter_has_id_nil _ _) (storage_ok_fresh_id c Hok)).
  unfold created. by rewrite tail_tail_drop, <- app_assoc.
Qed.

Lemma created_storage_ok body c : storage_ok c → storage_ok (created c body).
Proof.
  intros (Hpos & Hids & Hnd). unfold storage_ok, created; simpl.
  split; [lia|]. split.
  - apply Forall_app. split.
    + eapply Forall_impl; [exact Hids|]. simpl. intros r Hr. lia.
    + constructor; [simpl; lia|constructor].
  - rewrite fmap_app. apply NoDup_app. split; [done|]. split.
    + intros x Hx Hx'. apply list_elem_of_singleton in Hx'. subst x.
      by apply (storage_ok_fresh_id c).
    + apply NoDup_singleton.
Qed.

Lemma at_time_storage_ok now c : storage_ok c → storage_ok (at_time now c).
Proof. done. Qed.

Lemma fresh_storage_ok : storage_ok fresh.
Proof. split; [done|]. split; [constructor|]. simpl. constructor. Qed.


Lemma filter_others_all i (l : list Task) :
  i ∉ id <$> l → filter (λ r, ¬ has_id i r) l = l.
Proof.
  induction l as [|r l IH]; [done|].
  rewrite fmap_cons, not_elem_of_cons. intros [Hne Hnotin].
  rewrite filter_cons_True by (unfold has_id; congruence).
  by rewrite IH.
Qed.

Lemma filter_others_gone i (l : list Task) :
  i ∉ id <$> filter (λ r, ¬ has_id i r) l.
Proof.
  intros Hin. apply list_elem_of_fmap in Hin as (r & -> & Hr).
  apply list_elem_of_filter in Hr as [Hne _]. by apply Hne.
Qed.

(** ** Updating a stored task *)

Lemma put_id_hit i body c :
  quiet 2 (outages c) →
  i ∈ id <$> table c →
  ∃ r0,
    r0 ∈ table c ∧ id r0 = i ∧
    Routes.put_id i body c =
      (Ok (res_json (JTask (updated_row c i body r0))),
       {| table := updated_row c i body <$> table c;
          auto_increment := auto_increment c;
          clock := clock c;
          outages := drop 2 (outages c);
          journal := journal c ++ [update_stmt i body; SELECT_WHERE_id i] |}).
Proof.
  intros Hq Hin. rewrite put_id_quiet by done.
  rewrite decide_False by (by rewrite filter_has_id_length; intros Hn).
  unfold updated_row at 1. rewrite filter_fmap_set_fields.
  destruct (filter (has_id i) (table c)) as [|r0 rest] eqn:Hf.
  { by apply filter_has_id_nil in Hf. }
  assert (r0 ∈ filter (has_id i) (table c)) as Hr by (rewrite Hf; left).
  apply list_elem_of_filter in Hr as [Hid Hr0].
  exists r0. split; [done|]. split; [done|].
  by rewrite tail_tail_drop, <- app_assoc.
Qed.

Lemma updated_row_fields c i body r :
  id r = i →
  id (updated_row c i body r) = i ∧
  title (updated_row c i body r) = bind_param (Body.title body) ∧
  description (updated_row c i body r) = bind_param (Body.description body) ∧
  status (updated_row c i body r) = bind_param (Body.status body).
Proof.
  intros <-. unfold updated_row. split; [apply set_fields_id|].
  apply set_fields_hit.
Qed.

(** ** The API client *)

Lemma axios_wire r n : wire (axios r n).2 = wire n ++ [r].
Proof.
  unfold axios. simpl. destruct (offline n); [done|].
  destruct (serve r (backend n)) as [[resp|e] c']; [|done].
  by case_bool_decide.
Qed.

Ltac service_unfold :=
  unfold taskService.getTasks, taskService.getTask, taskService.createTask,
    taskService.updateTask, taskService.deleteTask, mbind, Eff_bind, eff_bind.

Lemma getTasks_wire n : wire (taskService.getTasks n).2 = wire n ++ [GET_tasks].
Proof.
  service_unfold. pose proof (axios_wire GET_tasks n) as Hw.
  destruct (axios GET_tasks n) as [[j|e] n']; [|done]. by destruct j.
Qed.

Lemma createTask_wire b n :
  wire (taskService.createTask b n).2 = wire n ++ [POST_tasks b].
Proof.
  service_unfold. pose proof (axios_wire (POST_tasks b) n) as Hw.
  destruct (axios (POST_tasks b) n) as [[j|e] n']; [|done]. by destruct j.
Qed.

Lemma updateTask_wire i b n :
  wire (taskService.updateTask i b n).2 = wire n ++ [PUT_task i b].
Proof.
  service_unfold. pose proof (axios_wire (PUT_task i b) n) as Hw.
  destruct (axios (PUT_task i b) n) as [[j|e] n']; [|done]. by destruct j.
Qed.

Lemma deleteTask_wire i n :
  wire (taskService.deleteTask i n).2 = wire n ++ [DELETE_task i].
Proof.
  service_unfold. pose proof (axios_wire (DELETE_task i) n) as Hw.
  by destruct (axios (DELETE_task i) n) as [[j|e] n'].
Qed.

(** An update of a stored task through the client succeeds when the server
    can be reached and storage does not fail. *)
Lemma updateTask_hit i body n :
  offline n = false →
  quiet 2 (outages (backend n)) →
  i ∈ id <$> table (backend n) →
  ∃ u n',
    taskService.updateTask i body n = (Ok u, n') ∧
    id u = i ∧
    title u = bind_param (Body.title body) ∧
    description u = bind_param (Body.description body) ∧
    status u = bind_param (Body.status body).
Proof.
  intros Hon Hq Hin.
  destruct (put_id_hit i body (backend n) Hq Hin) as (r0 & Hr0 & Hid & Hput).
  service_unfold. unfold axios. simpl. rewrite Hon, Hput. simpl.
  eexists _, _. split; [reflexivity|]. by apply updated_row_fields.
Qed.

(** ** The page handlers, outcome by outcome *)

Ltac handler_unfold :=
  unfold Page.loadTasks, Page.handleCreateTask, Page.handleEditTask,
    Page.handleDeleteTask, Page.handleStatusChange, Page.openEditForm,
    Page.closeForm, try_catch_finally, try_catch, mbind, Eff_bind, eff_bind,
    await.

Lemma handleStatusChange_run render i s w :
  Page.handleStatusChange render i s w =
    match taskService.updateTask i (only_status s) (net w) with
    | (Ok u, n') =>
        (Ok tt,
         {| home := {| tasks := (λ task, if decide (id task = i) then u else task)
                                  <$> tasks render;
                       loading := loading (home w); error := error (home w);
                       showForm := showForm (home w);
                       editingTask := editingTask (home w) |};
            net := n' |})
    | (Throw e, n') =>
        (Ok tt,
         {| home := {| tasks := tasks (home w); loading := loading (home w);
                       error := Some "Failed to update task status";
                       showForm := showForm (home w);
                       editingTask := editingTask (home w) |};
            net := n' |})
    end.
Proof.
  handler_unfold.
  change (Body.Build undefined undefined (str (status_text s))) with (only_status s).
  by destruct (taskService.updateTask i (only_status s) (net w)) as [[u|e] n'].
Qed.

Lemma handleDeleteTask_declined render confirm i w :
  confirm "Are you sure you want to delete this task?" = false →
  Page.handleDeleteTask render confirm i w = (Ok tt, w).
Proof. intros Hno. handler_unfold. by rewrite Hno. Qed.

Lemma handleDeleteTask_confirmed render confirm i w :
  confirm "Are you sure you want to delete this task?" = true →
  Page.handleDeleteTask render confirm i w =
    match taskService.deleteTask i (net w) with
    | (Ok _, n') =>
        (Ok tt,
         {| home := {| tasks := filter (λ task, id task ≠ i) (tasks render);
                       loading := loading (home w); error := error (home w);
                       showForm := showForm (home w);
                       editingTask := editingTask (home w) |};
            net := n' |})
    | (Throw e, n') =>
        (Ok tt,
         {| home := {| tasks := tasks (home w); loading := loading (home w);
                       error := Some "Failed to delete task";
                       showForm := showForm (home w);
                       editingTask := editingTask (home w) |};
            net := n' |})
    end.
Proof.
  intros Hyes. handler_unfold. rewrite Hyes. simpl.
  by destruct (taskService.deleteTask i (net w)) as [[u|e] n'].
Qed.

Lemma handleEditTask_idle render taskData w :
  editingTask render = None →
  Page.handleEditTask render taskData w = (Ok tt, w).
Proof. intros Hnone. handler_unfold. by rewrite Hnone. Qed.

Lemma handleEditTask_net render editing taskData w :
  editingTask render = Some editing →
  net (final (Page.handleEditTask render taskData w))
  = (taskService.updateTask (id editing) taskData (net w)).2.
Proof.
  intros Hsome. handler_unfold. rewrite Hsome.
  by destruct (taskService.updateTask (id editing) taskData (net w)) as [[u|e] n'].
Qed.

Lemma handleCreateTask_net render taskData w :
  net (final (Page.handleCreateTask render taskData w))
  = (taskService.createTask taskData (net w)).2.
Proof.
  handler_unfold.
  by destruct (taskService.createTask taskData (net w)) as [[u|e] n'].
Qed.

Lemma loadTasks_net w :
  net (final (Page.loadTasks w)) = (taskService.getTasks (net w)).2.
Proof.
  handler_unfold. simpl.
  by destruct (taskService.getTasks (net w)) as [[u|e] n'].
Qed.

(** ** Replacing and removing list elements by id *)

Lemma fmap_replace_lookup i u (l : list Task) k t :
  l !! k = Some t →
  ((λ task, if decide (id task = i) then u else task) <$> l) !! k
  = Some (if decide (id t = i) then u else t).
Proof. intros Hk. by rewrite list_lookup_fmap, Hk. Qed.

Lemma fmap_replace_insert i u (l : list Task) k old :
  NoDup (id <$> l) →
  l !! k = Some old →
  id old = i →
  (λ task, if decide (id task = i) then u else task) <$> l = <[k:=u]> l.
Proof.
  intros Hnd Hk Hid. apply list_eq. intros j.
  rewrite list_lookup_fmap. destruct (decide (j = k)) as [->|Hne].
  - rewrite Hk, list_lookup_insert_eq by (by eapply lookup_lt_Some). simpl.
    by rewrite decide_True.
  - rewrite list_lookup_insert_ne by done.
    destruct (l !! j) as [t|] eqn:Hj; [|done]. simpl.
    rewrite decide_False; [done|]. intros Heq. apply Hne.
    apply (NoDup_lookup (id <$> l) j k i); [done|..];
      rewrite list_lookup_fmap; [by rewrite Hj; simpl; rewrite Heq|].
    by rewrite Hk; simpl; rewrite Hid.
Qed.

Lemma filter_remove_delete i (l : list Task) k old :
  NoDup (id <$> l) →
  l !! k = Some old →
  id old = i →
  filter (λ task, id task ≠ i) l = delete k l.
Proof.
  revert k. induction l as [|t l IH]; intros k Hnd Hk Hid; [done|].
  rewrite fmap_cons in Hnd. apply NoDup_cons in Hnd as [Hnotin Hnd].
  destruct k as [|k]; simpl in Hk.
  - injection Hk as ->. rewrite filter_cons_False by (intros Hne; by apply Hne).
    simpl. rewrite <- Hid in *. clear Hid IH.
    induction l as [|t l IH]; [done|].
    rewrite fmap_cons, not_elem_of_cons in Hnotin. destruct Hnotin as [Hne Hnotin].
    rewrite fmap_cons in Hnd. apply NoDup_cons in Hnd as [_ Hnd].
    rewrite filter_cons_True by congruence. by rewrite IH.
  - rewrite filter_cons_True.
    + simpl. f_equal. by apply IH.
    + intros Heq. apply Hnotin. rewrite Heq, <- Hid.
      apply list_elem_of_fmap_2. by eapply list_elem_of_lookup_2.
Qed.

(** ** Which requests an event puts on the wire *)

Lemma dispatch_requests confirm e w :
  ∃ reqs,
    wire (net (fire (dispatch confirm e) w)) = wire (net w) ++ reqs ∧
    ∀ j, DELETE_task j ∈ reqs →
         e = CardDelete j ∧
         confirm "Are you sure you want to delete this task?" = true.
Proof.
  unfold fire. destruct e as [| |taskData| |task|i|i s]; simpl.
  - exists [GET_tasks]. rewrite loadTasks_net, getTasks_wire.
    split; [done|]. intros j Hj. apply list_elem_of_singleton in Hj. done.
  - exists []. split; [by rewrite app_nil_r|]. intros j Hj. by apply elem_of_nil in Hj.
  - destruct (editingTask (home w)) as [editing|] eqn:He.
    + exists [PUT_task (id editing) taskData].
      rewrite (handleEditTask_net _ editing), updateTask_wire by done.
      split; [done|]. intros j Hj. apply list_elem_of_singleton in Hj. done.
    + exists [POST_tasks taskData].
      rewrite handleCreateTask_net, createTask_wire.
      split; [done|]. intros j Hj. apply list_elem_of_singleton in Hj. done.
  - exists []. split; [by rewrite app_nil_r|]. intros j Hj. by apply elem_of_nil in Hj.
  - exists []. split; [by rewrite app_nil_r|]. intros j Hj. by apply elem_of_nil in Hj.
  - destruct (confirm "Are you sure you want to delete this task?") eqn:Hc.
    + exists [DELETE_task i]. rewrite handleDeleteTask_confirmed by done.
      pose proof (deleteTask_wire i (net w)) as Hw.
      destruct (taskService.deleteTask i (net w)) as [[u|err] n']; simpl in *;
        (split; [done|]); intros j Hj; apply list_elem_of_singleton in Hj;
        by injection Hj as ->.
    + exists []. rewrite handleDeleteTask_declined by done.
      split; [by rewrite app_nil_r|]. intros j Hj. by apply elem_of_nil in Hj.
  - exists [PUT_task i (only_status s)]. rewrite handleStatusChange_run.
    pose proof (updateTask_wire i (only_status s) (net w)) as Hw.
    destruct (taskService.updateTask i (only_status s) (net w)) as [[u|err] n'];
      simpl in *; (split; [done|]); intros j Hj;
      apply list_elem_of_singleton in Hj; done.
Qed.

(** ** What the routes answer *)

Lemma execute_cases q c :
  (∃ msg, execute q c = (Throw msg, pop_outage c)) ∨
  execute q c = (Ok (run_stmt q (pop_outage c)).1,
                 log_stmt q (run_stmt q (pop_outage c)).2).
Proof.
  unfold execute. destruct (head (outages c)) as [[msg|]|]; eauto;
    right; by destruct (run_stmt q (pop_outage c)).
Qed.

Ltac step_execute :=
  match goal with
  | |- context [execute ?q ?c] =>
      let msg := fresh "msg" in
      destruct (execute_cases q c) as [[msg ->]| ->]; simpl
  end.

(** Every route answers: the [catch] turns a storage failure into a 500. *)
Lemma routes_answer r c : ∃ resp c', serve r c = (Ok resp, c').
Proof.
  destruct r as [|i|b|i b|i]; simpl; route_unfold.
  - step_execute; eauto.
  - step_execute; eauto. case_decide; simpl; eauto.
  - destruct (truthy (Body.title b)); simpl; eauto.
    step_execute; eauto. step_execute; eauto.
  - step_execute; eauto. case_decide; simpl; eauto. step_execute; eauto.
  - step_execute; eauto. case_decide; simpl; eauto.
Qed.

Lemma put_2xx_is_task i body c resp c' :
  Routes.put_id i body c = (Ok resp, c') →
  200 <= code resp < 300 →
  ∃ t, data resp = JTask t.
Proof.
  route_unfold. step_execute.
  { intros Heq Hcode; injection Heq as <- <-; simpl in *; lia. }
  case_decide as Hrows; simpl.
  { intros Heq Hcode; injection Heq as <- <-; simpl in *; lia. }
  step_execute; intros Heq Hcode; injection Heq as <- <-; simpl in *; [lia|].
  rewrite filter_fmap_set_fields.
  destruct (filter (has_id i) (table c)); [done|simpl; eauto].
Qed.

Lemma post_2xx_is_task body c resp c' :
  Routes.post_root body c = (Ok resp, c') →
  200 <= code resp < 300 →
  ∃ t, data resp = JTask t.
Proof.
  route_unfold. destruct (truthy (Body.title body)); simpl.
  2: { intros Heq Hcode; injection Heq as <- <-; simpl in *; lia. }
  step_execute.
  { intros Heq Hcode; injection Heq as <- <-; simpl in *; lia. }
  step_execute; intros Heq Hcode; injection Heq as <- <-; simpl in *; [lia|].
  rewrite filter_app, filter_cons_True by done.
  destruct (filter (has_id (auto_increment c)) (table c)); simpl; eauto.
Qed.

(** ** Well-formed storage is an invariant of the routes *)

Lemma storage_ok_same_rows c c' :
  table c' = table c → auto_increment c' = auto_increment c →
  storage_ok c → storage_ok c'.
Proof. unfold storage_ok. by intros -> ->. Qed.

Lemma run_stmt_storage_ok q c : storage_ok c → storage_ok (run_stmt q c).2.
Proof.
  intros Hok. pose proof Hok as (Hpos & Hids & Hnd).
  destruct q as [|i|t d s|t d s i|i]; simpl; try done.
  - split; [simpl; lia|]. simpl. split.
    + apply Forall_app. split.
      * eapply Forall_impl; [exact Hids|]. simpl. intros r Hr. lia.
      * constructor; [simpl; lia|constructor].
    + rewrite fmap_app. apply NoDup_app. split; [done|]. split.
      * intros x Hx Hx'. apply list_elem_of_singleton in Hx'. subst x.
        by apply (storage_ok_fresh_id c).
      * apply NoDup_singleton.
  - split; [done|]. simpl. split.
    + apply Forall_fmap. eapply Forall_impl; [exact Hids|]. simpl.
      intros r Hr. by rewrite set_fields_id.
    + by rewrite fmap_set_fields_ids.
  - split; [done|]. simpl. split.
    + rewrite Forall_forall in Hids. apply Forall_forall. intros r Hr.
      apply list_elem_of_filter in Hr as [_ Hr]. by apply Hids.
    + apply (sublist_NoDup _ (id <$> table c)); [exact Hnd|].
      apply fmap_sublist, sublist_filter.
Qed.

Lemma execute_storage_ok q c : storage_ok c → storage_ok (execute q c).2.
Proof.
  intros Hok.
  assert (storage_ok (pop_outage c)) as Hpop by done.
  destruct (execute_cases q c) as [[msg ->]| ->]; [done|]. simpl.
  by apply (run_stmt_storage_ok q).
Qed.

Lemma serve_storage_ok r c : storage_ok c → storage_ok (final (serve r c)).
Proof.
  intros Hok. unfold final. destruct r as [|i|b|i b|i]; simpl; route_unfold.
  - pose proof (execute_storage_ok SELECT_all_ORDER_BY_created_at_DESC c Hok) as H1.
    by destruct (execute _ c) as [[r|msg] c1].
  - pose proof (execute_storage_ok (SELECT_WHERE_id i) c Hok) as H1.
    destruct (execute _ c) as [[r|msg] c1]; [|done]. by case_decide.
  - destruct (negb (truthy (Body.title b))); [done|].
    pose proof (execute_storage_ok (insert_stmt b) c Hok) as H1.
    unfold insert_stmt in H1.
    destruct (execute _ c) as [[r|msg] c1]; [|done]. simpl in *.
    pose proof (execute_storage_ok (SELECT_WHERE_id (insertId r)) c1 H1) as H2.
    by destruct (execute _ c1) as [[r'|msg] c2].
  - pose proof (execute_storage_ok (update_stmt i b) c Hok) as H1.
    unfold update_stmt in H1.
    destruct (execute _ c) as [[r|msg] c1]; [|done]. simpl in *.
    case_decide; [done|].
    pose proof (execute_storage_ok (SELECT_WHERE_id i) c1 H1) as H2.
    by destruct (execute _ c1) as [[r'|msg] c2].
  - pose proof (execute_storage_ok (DELETE_WHERE_id i) c Hok) as H1.
    destruct (execute _ c) as [[r|msg] c1]; [|done]. by case_decide.
Qed.

(** * Properties of the specification *)

(** C1. Update replaces in full.  Without storage failure, a PUT on the id of
    a stored task is answered 200 with a row of that id, and every stored
    row of that id then has its title, description and status as bound from
    the request body, a field the body does not supply being null whatever
    the row held before; in particular a body that supplies neither title
    nor description (such as a status alone) leaves both null.  Rows of
    other ids are untouched. *)
Theorem update_full_replace (c : Conn) (i : Z) (body : Body.t) :
  quiet 2 (outages c) →
  i ∈ id <$> table c →
  ∃ u c',
    Routes.put_id i body c = (Ok (res_json (JTask u)), c') ∧
    u ∈ table c' ∧ id u = i ∧
    (∀ r, r ∈ table c' → id r = i →
       title r = bind_param (Body.title body) ∧
       description r = bind_param (Body.description body) ∧
       status r = bind_param (Body.status body)) ∧
    (Body.title body = undefined → Body.description body = undefined →
       ∀ r, r ∈ table c' → id r = i → title r = None ∧ description r = None) ∧
    filter (λ r, ¬ has_id i r) (table c') = filter (λ r, ¬ has_id i r) (table c).
Proof.
  intros Hq Hin.
  destruct (put_id_hit i body c Hq Hin) as (r0 & Hr0 & Hid & ->).
  destruct (updated_row_fields c i body r0 Hid) as (Hid' & _).
  assert (∀ r, r ∈ updated_row c i body <$> table c → id r = i →
     title r = bind_param (Body.title body) ∧
     description r = bind_param (Body.description body) ∧
     status r = bind_param (Body.status body)) as Hall.
  { intros r Hr Hidr. apply list_elem_of_fmap in Hr as (r1 & -> & _).
    apply updated_row_fields.
    unfold updated_row in Hidr. by rewrite set_fields_id in Hidr. }
  eexists _, _. split; [reflexivity|]. simpl.
  split; [by apply list_elem_of_fmap_2|]. split; [done|].
  split; [exact Hall|]. split.
  - intros Ht Hd r Hr Hidr. destruct (Hall r Hr Hidr) as (-> & -> & _).
    by rewrite Ht, Hd.
  - apply filter_others_set_fields.
Qed.

Lemma update_full_replace_witness :
  ∃ u c',
    Routes.put_id 1 (only_status completed) milk_store = (Ok (res_json (JTask u)), c') ∧
    title u = None ∧ description u = None ∧ status u = Some "completed".
Proof.
  destruct (update_full_replace milk_store 1 (only_status completed))
    as (u & c' & Hput & Hu & Hid & Hall & _).
  - exact I.
  - vm_compute. constructor.
  - exists u, c'. split; [exact Hput|]. by apply Hall.
Defined.

(** C2. A create request whose title is absent ([undefined]), [null] or the
    empty string is answered with 400 "Title is required"; no statement
    reaches storage: the connection, hence the stored tasks and the journal
    of executed statements, is left exactly as it was. *)
Theorem create_without_title_rejected (c : Conn) (body : Body.t) :
  Body.title body = undefined ∨ Body.title body = null
    ∨ Body.title body = str EmptyString →
  (Routes.post_root body c).1 = Ok (res_status_json 400 (JError "Title is required")) ∧
  final (Routes.post_root body c) = c ∧
  stored (final (Routes.post_root body c)) = stored c ∧
  journal (final (Routes.post_root body c)) = journal c.
Proof.
  intros Ht. rewrite post_root_falsy; [done|].
  by destruct Ht as [-> | [-> | ->]].
Qed.

Lemma create_without_title_rejected_witness :
  (Routes.post_root (Body.Build undefined (str "no title") undefined) milk_store).1
    = Ok (res_status_json 400 (JError "Title is required")) ∧
  final (Routes.post_root (Body.Build (str EmptyString) undefined undefined) milk_store)
    = milk_store.
Proof.
  split.
  - apply (create_without_title_rejected milk_store
             (Body.Build undefined (str "no title") undefined)).
    by left.
  - apply (create_without_title_rejected milk_store
             (Body.Build (str EmptyString) undefined undefined)).
    by right; right.
Defined.

(** C3. On well-formed storage and without storage failure, a create request
    with a non-empty title is answered with 201 and the row read back after
    the insert: the only stored row under its id, which is positive and was
    not in use before; its title is the request's, and its status is
    "pending" when the request omitted the status. *)
Theorem create_returns_fresh_record (c : Conn) (body : Body.t) (a : ascii) (s : string) :
  storage_ok c →
  quiet 2 (outages c) →
  Body.title body = str (String a s) →
  ∃ t c',
    Routes.post_root body c = (Ok (res_status_json 201 (JTask t)), c') ∧
    table c' = table c ++ [t] ∧
    filter (has_id (id t)) (table c') = [t] ∧
    0 < id t ∧
    (id t ∉ id <$> table c) ∧
    title t = Some (String a s) ∧
    (Body.status body = undefined → status t = Some "pending").
Proof.
  intros Hok Hq Ht. exists (new_row c body), (created c body).
  rewrite post_root_created by (try done; by rewrite Ht).
  split; [done|]. split; [done|]. split.
  - apply filter_has_id_unique; [|apply elem_of_app; right; constructor|done].
    by destruct (created_storage_ok body c Hok) as (_ & _ & ?).
  - split; [destruct Hok as (? & _); simpl; lia|].
    split; [by apply storage_ok_fresh_id|].
    split; [simpl; by rewrite Ht|].
    intros Hs. simpl. by rewrite Hs.
Qed.

Lemma create_returns_fresh_record_witness :
  ∃ t c',
    Routes.post_root milk milk_store = (Ok (res_status_json 201 (JTask t)), c') ∧
    id t = 2 ∧ title t = Some "Buy milk" ∧ status t = Some "pending".
Proof.
  destruct (create_returns_fresh_record milk_store milk "B"%char "uy milk")
    as (t & c' & Hpost & _ & _ & _ & _ & Htitle & Hstatus).
  - apply created_storage_ok, fresh_storage_ok.
  - exact I.
  - reflexivity.
  - exists t, c'. split; [exact Hpost|].
    split; [|split; [exact Htitle|by apply Hstatus]].
    assert (Ok (A:=Response) (res_status_json 201 (JTask t))
            = Ok (res_status_json 201 (JTask (new_row milk_store milk)))) as Heq.
    { change (Ok (res_status_json 201 (JTask t)))
        with ((Ok (res_status_json 201 (JTask t)), c').1).
      by rewrite <- Hpost. }
    by inversion Heq.
Defined.

(** C4 (as the code has it). Listing takes no input and, without storage
    failure, answers 200 with all stored tasks, ordered by [created_at]
    descending, and changes nothing stored.  When T1, T2 and T3 are inserted
    at strictly increasing clock readings, all later than the rows already
    stored, listing yields T3, T2, T1 ahead of the older rows; on an empty
    table it yields exactly T3, T2, T1. *)
Theorem list_newest_first :
  (∀ c, quiet 1 (outages c) →
     ∃ l c',
       Routes.get_root c = (Ok (res_json (JTasks l)), c') ∧
       stored c' = stored c ∧
       order_by_contract (table c) l) ∧
  (∀ c b1 b2 b3 t1 t2 t3,
     storage_ok c →
     quiet 7 (outages c) →
     truthy (Body.title b1) = true →
     truthy (Body.title b2) = true →
     truthy (Body.title b3) = true →
     Forall (λ r, created_at r < t1) (table c) →
     t1 < t2 → t2 < t3 →
     ∃ T1 T2 T3 c1 c2 c3 older,
       Routes.post_root b1 (at_time t1 c) = (Ok (res_status_json 201 (JTask T1)), c1) ∧
       Routes.post_root b2 (at_time t2 c1) = (Ok (res_status_json 201 (JTask T2)), c2) ∧
       Routes.post_root b3 (at_time t3 c2) = (Ok (res_status_json 201 (JTask T3)), c3) ∧
       (Routes.get_root c).1 = Ok (res_json (JTasks older)) ∧
       (Routes.get_root c3).1 = Ok (res_json (JTasks (T3 :: T2 :: T1 :: older))) ∧
       (table c = [] → older = [])).
Proof.
  split.
  - intros c Hq. eexists _, _. rewrite get_root_quiet by done.
    split; [reflexivity|]. split; [done|]. apply order_by_meets_contract.
  - intros c b1 b2 b3 t1 t2 t3 Hok Hq Hb1 Hb2 Hb3 Hold H12 H23.
    set (c1 := created (at_time t1 c) b1).
    set (c2 := created (at_time t2 c1) b2).
    set (c3 := created (at_time t3 c2) b3).
    assert (storage_ok c1) as Hok1 by by apply created_storage_ok.
    assert (storage_ok c2) as Hok2 by by apply created_storage_ok.
    assert (quiet 5 (outages c1)) as Hq1 by by apply (quiet_drop 5 2).
    assert (quiet 3 (outages c2)) as Hq2 by by apply (quiet_drop 3 2).
    assert (quiet 1 (outages c3)) as Hq3 by by apply (quiet_drop 1 2).
    exists (new_row (at_time t1 c) b1), (new_row (at_time t2 c1) b2),
      (new_row (at_time t3 c2) b3), c1, c2, c3,
      (order_by_created_at_desc (table c)).
    rewrite !post_root_created; try done.
    2,3,4: eapply quiet_le; [|eassumption]; simpl; lia.
    rewrite !get_root_quiet; [|done|eapply quiet_le; [|exact Hq]; lia].
    do 3 (split; [done|]). split; [done|]. split; [|by intros ->].
    simpl. do 2 f_equal.
    rewrite !order_by_app_newest; [done|..]; simpl.
    + eapply Forall_impl; [exact Hold|]. simpl. lia.
    + apply Forall_app. split; [|repeat constructor; simpl; lia].
      eapply Forall_impl; [exact Hold|]. simpl. lia.
    + apply Forall_app. split; [|repeat constructor; simpl; lia].
      apply Forall_app. split; [|repeat constructor; simpl; lia].
      eapply Forall_impl; [exact Hold|]. simpl. lia.
Qed.

Lemma list_newest_first_witness :
  ∃ T1 T2 T3 c1 c2 c3,
    Routes.post_root (titled "T1") (at_time 1 fresh) = (Ok (res_status_json 201 (JTask T1)), c1) ∧
    Routes.post_root (titled "T2") (at_time 2 c1) = (Ok (res_status_json 201 (JTask T2)), c2) ∧
    Routes.post_root (titled "T3") (at_time 3 c2) = (Ok (res_status_json 201 (JTask T3)), c3) ∧
    (Routes.get_root c3).1 = Ok (res_json (JTasks [T3; T2; T1])).
Proof.
  destruct (proj2 list_newest_first fresh (titled "T1") (titled "T2") (titled "T3") 1 2 3)
    as (T1 & T2 & T3 & c1 & c2 & c3 & older & H1 & H2 & H3 & _ & Hlist & Hold).
  - apply fresh_storage_ok.
  - exact I.
  - reflexivity.
  - reflexivity.
  - reflexivity.
  - constructor.
  - lia.
  - lia.
  - exists T1, T2, T3, c1, c2, c3. rewrite (Hold eq_refl) in Hlist. done.
Defined.

(** C4, the claim as it is written fails: three tasks inserted while the
    clock reads the same instant carry equal [created_at]; listing T1, T2, T3
    in storage order meets the [ORDER BY created_at DESC] clause, and it is
    what the listing returns. *)
Lemma list_same_tick_counterexample :
  order_by_contract (table same_tick_store)
    [pending_row 1 "T1" 0; pending_row 2 "T2" 0; pending_row 3 "T3" 0] ∧
  (Routes.get_root same_tick_store).1
    = Ok (res_json (JTasks [pending_row 1 "T1" 0; pending_row 2 "T2" 0;
                            pending_row 3 "T3" 0])) ∧
  (Routes.get_root same_tick_store).1
    ≠ Ok (res_json (JTasks [pending_row 3 "T3" 0; pending_row 2 "T2" 0;
                            pending_row 1 "T1" 0])).
Proof.
  split; [|split].
  - split; [done|]. repeat constructor; by vm_compute.
  - by vm_compute.
  - vm_compute. intros Heq. discriminate Heq.
Qed.

(** C5. Without storage failure, for an id that matches no stored task both
    Get and Delete answer 404 "Task not found" and the stored tasks are
    unchanged.  For an id that matches, the first Delete answers 200, after
    which the id matches nothing, the second Delete answers 404, and what is
    stored after both deletes is what was stored after the first. *)
Theorem missing_id_not_found (c : Conn) (i : Z) :
  quiet 2 (outages c) →
  (i ∉ id <$> table c →
     (Routes.get_id i c).1 = Ok (res_status_json 404 (JError "Task not found")) ∧
     (Routes.delete_id i c).1 = Ok (res_status_json 404 (JError "Task not found")) ∧
     stored (final (Routes.get_id i c)) = stored c ∧
     stored (final (Routes.delete_id i c)) = stored c) ∧
  (i ∈ id <$> table c →
     let c1 := final (Routes.delete_id i c) in
     let c2 := final (Routes.delete_id i c1) in
     (Routes.delete_id i c).1 = Ok (res_json (JMessage "Task deleted successfully")) ∧
     code (res_json (JMessage "Task deleted successfully")) = 200 ∧
     (i ∉ id <$> table c1) ∧
     (Routes.get_id i c1).1 = Ok (res_status_json 404 (JError "Task not found")) ∧
     (Routes.delete_id i c1).1 = Ok (res_status_json 404 (JError "Task not found")) ∧
     stored c2 = stored c1).
Proof.
  intros Hq. pose proof (quiet_head _ _ Hq) as Hq1. split.
  - intros Hnotin. rewrite get_id_quiet, delete_id_quiet by done. simpl.
    rewrite (proj2 (filter_has_id_nil i (table c)) Hnotin).
    rewrite decide_True by done. unfold stored, final. simpl.
    by rewrite filter_others_all.
  - intros Hin c1 c2.
    assert (quiet 1 (outages c1)) as Hq2.
    { subst c1. rewrite delete_id_quiet by done. unfold final.
      cbn [snd outages]. by apply quiet_tail. }
    assert (i ∉ id <$> table c1) as Hgone.
    { subst c1. rewrite delete_id_quiet by done. simpl. apply filter_others_gone. }
    split.
    { rewrite delete_id_quiet by done. simpl.
      rewrite decide_False; [done|]. by rewrite filter_has_id_length; intros Hn. }
    split; [done|]. split; [done|].
    subst c2. rewrite get_id_quiet, delete_id_quiet by done. simpl.
    rewrite (proj2 (filter_has_id_nil i (table c1)) Hgone).
    rewrite decide_True by done. unfold stored, final. simpl.
    by rewrite filter_others_all.
Qed.

Lemma missing_id_not_found_witness :
  (Routes.get_id 7 milk_store).1 = Ok (res_status_json 404 (JError "Task not found")) ∧
  (Routes.delete_id 7 milk_store).1 = Ok (res_status_json 404 (JError "Task not found")) ∧
  (Routes.delete_id 1 milk_store).1 = Ok (res_json (JMessage "Task deleted successfully")) ∧
  (Routes.delete_id 1 (final (Routes.delete_id 1 milk_store))).1
    = Ok (res_status_json 404 (JError "Task not found")).
Proof.
  destruct (missing_id_not_found milk_store 7 I) as [Hmissing _].
  destruct (missing_id_not_found milk_store 1 I) as [_ Htwice].
  destruct Hmissing as (Hget & Hdel & _).
  { vm_compute. intros Hin. inversion Hin as [|? ? ? Hin']; inversion Hin'. }
  destruct Htwice as (Hfirst & _ & _ & _ & Hsecond & _).
  { vm_compute. constructor. }
  done.
Defined.

(** C6. On well-formed storage and without storage failure, creating a task
    and then getting it by the returned id (whatever the clock reads by then)
    answers 200 with the very record the create response carried: the same
    id, title, description, status and timestamps. *)
Theorem create_then_get_round_trip (c : Conn) (body : Body.t) (now : Z) :
  storage_ok c →
  quiet 3 (outages c) →
  truthy (Body.title body) = true →
  ∃ t c',
    Routes.post_root body c = (Ok (res_status_json 201 (JTask t)), c') ∧
    (Routes.get_id (id t) (at_time now c')).1 = Ok (res_json (JTask t)).
Proof.
  intros Hok Hq Ht. exists (new_row c body), (created c body).
  rewrite post_root_created; [|done|done|by eapply quiet_le; [|exact Hq]; lia].
  split; [done|].
  rewrite get_id_quiet by (by apply (quiet_drop 1 2)). simpl.
  rewrite (filter_has_id_unique (auto_increment c) (new_row c body)); [done|..].
  - by destruct (created_storage_ok body c Hok) as (_ & _ & ?).
  - apply elem_of_app. right. constructor.
  - done.
Qed.

Lemma create_then_get_round_trip_witness :
  ∃ t c',
    Routes.post_root milk milk_store = (Ok (res_status_json 201 (JTask t)), c') ∧
    (Routes.get_id (id t) (at_time 5 c')).1 = Ok (res_json (JTask t)).
Proof.
  apply (create_then_get_round_trip milk_store milk 5).
  - apply created_storage_ok, fresh_storage_ok.
  - exact I.
  - reflexivity.
Defined.

(** C7, evaluated.  The store holding the one valid task "Buy milk" meets the
    data-model invariants.  An update that supplies all three fields as
    strings, the title being the empty string, is answered 200 with the task
    carrying that empty title, and the stored task then has an empty title:
    the invariants are lost.  The create route turns the very same body down
    with 400 "Title is required". *)
Theorem update_with_empty_title_breaks_invariant :
  data_model_ok milk_store ∧
  (Routes.put_id 1 blank_title_update milk_store).1
    = Ok (res_json (JTask {| id := 1; title := Some EmptyString;
                             description := Some "2 litres";
                             status := Some "completed";
                             created_at := 0; updated_at := 0 |})) ∧
  table (final (Routes.put_id 1 blank_title_update milk_store))
    = [ {| id := 1; title := Some EmptyString;
           description := Some "2 litres"; status := Some "completed";
           created_at := 0; updated_at := 0 |} ] ∧
  ¬ data_model_ok (final (Routes.put_id 1 blank_title_update milk_store)) ∧
  (Routes.post_root blank_title_update milk_store).1
    = Ok (res_status_json 400 (JError "Title is required")).
Proof.
  split; [by repeat constructor|]. split; [by vm_compute|].
  split; [by vm_compute|]. split; [|by vm_compute].
  vm_compute. intros Hinv. inversion Hinv as [|? ? Hrow _]. discriminate Hrow.
Qed.

(** C8. The status-change shortcut, for the id of a task in the in-memory
    list: the handler issues exactly one request, a PUT on that id whose body
    carries the status and nothing else.  When the call resolves with a task
    [u], every element of that id is replaced by [u] in place and every other
    element stays where it was, so that with distinct ids the new list is the
    old one with [u] written at the position of the matching element; the
    other state fields are unchanged.  When the call fails, the error field
    is set and nothing else of the state changes.  The call does resolve when
    the server is reachable, storage does not fail and the task is stored. *)
Theorem status_change_splices (w : World) (i : Z) (s : TaskStatus) :
  i ∈ id <$> tasks (home w) →
  let w' := fire (λ render, Page.handleStatusChange render i s) w in
  let call := taskService.updateTask i (Body.Build undefined undefined (str (status_text s))) (net w) in
  wire (net w') = wire (net w) ++ [PUT_task i (Body.Build undefined undefined (str (status_text s)))] ∧
  net w' = call.2 ∧
  match call.1 with
  | Ok u =>
      loading (home w') = loading (home w) ∧
      error (home w') = error (home w) ∧
      showForm (home w') = showForm (home w) ∧
      editingTask (home w') = editingTask (home w) ∧
      length (tasks (home w')) = length (tasks (home w)) ∧
      (∀ k t, tasks (home w) !! k = Some t →
              tasks (home w') !! k = Some (if decide (id t = i) then u else t)) ∧
      (NoDup (id <$> tasks (home w)) →
         ∃ k old, tasks (home w) !! k = Some old ∧ id old = i ∧
                  tasks (home w') = <[k:=u]> (tasks (home w)))
  | Throw _ =>
      home w' = {| tasks := tasks (home w); loading := loading (home w);
                   error := Some "Failed to update task status";
                   showForm := showForm (home w);
                   editingTask := editingTask (home w) |}
  end ∧
  (offline (net w) = false →
   quiet 2 (outages (backend (net w))) →
   i ∈ id <$> table (backend (net w)) →
   ∃ u, call.1 = Ok u ∧ id u = i ∧ status u = Some (status_text s)).
Proof.
  intros Hin w' call. subst w'. unfold fire. rewrite handleStatusChange_run.
  change (only_status s) with (Body.Build undefined undefined (str (status_text s))).
  pose proof (updateTask_wire i (Body.Build undefined undefined (str (status_text s))) (net w)) as Hw.
  assert (offline (net w) = false →
          quiet 2 (outages (backend (net w))) →
          i ∈ id <$> table (backend (net w)) →
          ∃ u, call.1 = Ok u ∧ id u = i ∧ status u = Some (status_text s)) as Hreach.
  { intros Hon Hq Hstored.
    destruct (updateTask_hit i (Body.Build undefined undefined (str (status_text s)))
                (net w) Hon Hq Hstored) as (u & n' & Hcall & Hid & _ & _ & Hstatus).
    exists u. subst call. by rewrite Hcall. }
  subst call.
  destruct (taskService.updateTask i _ (net w)) as [[u|err] n']; simpl in *.
  - split; [done|]. split; [done|]. split; [|done].
    do 4 (split; [done|]). split; [by rewrite length_fmap|].
    split; [intros k t Hk; by apply fmap_replace_lookup|].
    intros Hnd. apply list_elem_of_fmap in Hin as (old & Hid & Hold).
    apply list_elem_of_lookup in Hold as [k Hk].
    exists k, old. split; [done|]. split; [done|].
    by apply (fmap_replace_insert i u _ k old).
  - done.
Qed.

Lemma status_change_splices_witness :
  tasks (home (fire (λ render, Page.handleStatusChange render 1 completed) milk_world))
  !! 0%nat
  = Some {| id := 1; title := None; description := None;
            status := Some "completed"; created_at := 0; updated_at := 0 |}.
Proof.
  assert (1 ∈ id <$> tasks (home milk_world)) as Hin by (vm_compute; constructor).
  destruct (status_change_splices milk_world 1 completed Hin)
    as (_ & _ & Hcase & _).
  vm_compute in Hcase. destruct Hcase as (_ & _ & _ & _ & _ & Hat & _).
  exact (Hat 0%nat _ eq_refl).
Defined.

(** C9. Deleting asks first.  When the confirmation prompt is declined the
    handler leaves the whole world as it was: no request is issued and the
    tasks, error and form state are unchanged.  When it is confirmed exactly
    one request, the DELETE of that id, is issued; if it succeeds the list
    keeps, in order, exactly the tasks of other ids (with distinct ids: the
    list without the matching position) and the rest of the state is
    unchanged; if it fails the error field is set and nothing else changes.
    Whatever the event, a DELETE reaches the wire only from the delete
    handler after the prompt was confirmed. *)
Theorem delete_asks_first (confirm : string → bool) (w : World) (i : Z) :
  let prompt := "Are you sure you want to delete this task?" in
  let w' := fire (λ render, Page.handleDeleteTask render confirm i) w in
  let call := taskService.deleteTask i (net w) in
  (confirm prompt = false → w' = w) ∧
  (confirm prompt = true →
     wire (net w') = wire (net w) ++ [DELETE_task i] ∧
     net w' = call.2 ∧
     match call.1 with
     | Ok _ =>
         home w' = {| tasks := filter (λ task, id task ≠ i) (tasks (home w));
                      loading := loading (home w); error := error (home w);
                      showForm := showForm (home w);
                      editingTask := editingTask (home w) |} ∧
         (∀ t, t ∈ tasks (home w') ↔ t ∈ tasks (home w) ∧ id t ≠ i) ∧
         tasks (home w') `sublist_of` tasks (home w) ∧
         (NoDup (id <$> tasks (home w)) →
            ∀ k old, tasks (home w) !! k = Some old → id old = i →
                     tasks (home w') = delete k (tasks (home w)))
     | Throw _ =>
         home w' = {| tasks := tasks (home w); loading := loading (home w);
                      error := Some "Failed to delete task";
                      showForm := showForm (home w);
                      editingTask := editingTask (home w) |}
     end) ∧
  (∀ e j,
     DELETE_task j ∈ wire (net (fire (dispatch confirm e) w)) →
     DELETE_task j ∈ wire (net w) ∨ (e = CardDelete j ∧ confirm prompt = true)).
Proof.
  intros prompt w' call. subst prompt w' call. unfold fire. split; [|split].
  - intros Hno. by rewrite handleDeleteTask_declined.
  - intros Hyes. rewrite handleDeleteTask_confirmed by done.
    pose proof (deleteTask_wire i (net w)) as Hw.
    destruct (taskService.deleteTask i (net w)) as [[u|err] n']; simpl in *;
      [|done].
    split; [done|]. split; [done|]. split; [done|]. split; [|split].
    + intros t. rewrite list_elem_of_filter. tauto.
    + apply sublist_filter.
    + intros Hnd k old Hk Hid. by apply (filter_remove_delete i _ k old).
  - intros e j Hj.
    destruct (dispatch_requests confirm e w) as (reqs & Hw & Hdel).
    unfold fire in Hw. rewrite Hw in Hj.
    apply elem_of_app in Hj as [Hj|Hj]; [by left|right; by apply Hdel].
Qed.

Lemma delete_asks_first_witness :
  fire (λ render, Page.handleDeleteTask render (λ _, false) 1) milk_world = milk_world ∧
  tasks (home (fire (λ render, Page.handleDeleteTask render (λ _, true) 1) milk_world)) = [].
Proof.
  split.
  - by apply (delete_asks_first (λ _, false) milk_world 1).
  - destruct (delete_asks_first (λ _, true) milk_world 1) as (_ & Hyes & _).
    destruct (Hyes eq_refl) as (_ & _ & Hcase).
    assert ((taskService.deleteTask 1 (net milk_world)).1 = Ok tt) as Hcall
      by by vm_compute.
    rewrite Hcall in Hcase. destruct Hcase as (Hhome & _).
    by rewrite Hhome.
Defined.

(** C10. Submitting the edit form while no editing target is set does
    nothing: the handler returns at once, no request is issued, and the
    tasks list, the error, the form visibility and the editing target (the
    whole world, in fact) are unchanged. *)
Theorem edit_without_target_is_noop (w : World) (taskData : Body.t) :
  editingTask (home w) = None →
  let w' := fire (λ render, Page.handleEditTask render taskData) w in
  Page.handleEditTask (home w) taskData w = (Ok tt, w) ∧
  w' = w ∧
  wire (net w') = wire (net w) ∧
  tasks (home w') = tasks (home w) ∧
  error (home w') = error (home w) ∧
  showForm (home w') = showForm (home w) ∧
  editingTask (home w') = editingTask (home w).
Proof.
  intros Hnone w'. subst w'. unfold fire.
  by rewrite handleEditTask_idle.
Qed.

Lemma edit_without_target_is_noop_witness :
  fire (λ render, Page.handleEditTask render milk) milk_world = milk_world.
Proof. by apply (edit_without_target_is_noop milk_world milk). Defined.

(** * Further properties of the routes *)

(** X1. Every route answers every request, whatever storage does: the
    handler never lets an exception escape, and the status code is one of
    those the route documents (or the 500 of its [catch]). *)
Theorem routes_status_codes (r : Request) (c : Conn) :
  ∃ resp c', serve r c = (Ok resp, c') ∧ code resp ∈ documented_codes r.
Proof.
  destruct r as [|i|b|i b|i]; simpl; route_unfold.
  - step_execute; eexists _, _; (split; [reflexivity|]); simpl; repeat constructor.
  - step_execute; [|case_decide; simpl];
      eexists _, _; (split; [reflexivity|]); simpl; repeat constructor.
  - destruct (truthy (Body.title b)); simpl;
      [step_execute; [|step_execute]|];
      eexists _, _; (split; [reflexivity|]); simpl; repeat constructor.
  - step_execute; [|case_decide; simpl; [|step_execute]];
      eexists _, _; (split; [reflexivity|]); simpl; repeat constructor.
  - step_execute; [|case_decide; simpl];
      eexists _, _; (split; [reflexivity|]); simpl; repeat constructor.
Qed.

(** X2. When the first storage call of a request fails, the route answers
    500 with the message of the failure, and nothing stored changes and no
    statement has run.  (A create request without a title is answered 400
    before any storage call, hence the side condition.) *)
Theorem storage_failure_gives_500 (r : Request) (c : Conn) (msg : string)
    (o : list (option string)) :
  outages c = Some msg :: o →
  (∀ b, r = POST_tasks b → truthy (Body.title b) = true) →
  (serve r c).1 = Ok (res_status_json 500 (JError msg)) ∧
  stored (final (serve r c)) = stored c ∧
  journal (final (serve r c)) = journal c.
Proof.
  intros Ho Htitle. unfold final.
  destruct r as [|i|b|i b|i]; simpl; route_unfold;
    try rewrite (Htitle b eq_refl); simpl;
    by rewrite (execute_outage _ c msg o Ho).
Qed.

Lemma storage_failure_gives_500_witness :
  (serve (DELETE_task 1) (with_outages [Some "ECONNREFUSED"] milk_store)).1
    = Ok (res_status_json 500 (JError "ECONNREFUSED")) ∧
  table (final (serve (POST_tasks milk) (with_outages [Some "ECONNREFUSED"] milk_store)))
    = table milk_store.
Proof.
  split.
  - apply (storage_failure_gives_500 (DELETE_task 1)
             (with_outages [Some "ECONNREFUSED"] milk_store) "ECONNREFUSED" []);
      [reflexivity|intros b Hb; discriminate Hb].
  - destruct (storage_failure_gives_500 (POST_tasks milk)
             (with_outages [Some "ECONNREFUSED"] milk_store) "ECONNREFUSED" [])
      as (_ & Hstored & _);
      [reflexivity|intros b Hb; by injection Hb as <-|].
    exact (f_equal fst Hstored).
Defined.

(** X3. Create is not atomic: when the insert succeeds and the read-back
    fails, the route answers 500 although the new row has been stored and its
    id consumed. *)
Theorem create_read_back_failure (body : Body.t) (c : Conn) (msg : string)
    (o : list (option string)) :
  truthy (Body.title body) = true →
  outages c = None :: Some msg :: o →
  (Routes.post_root body c).1 = Ok (res_status_json 500 (JError msg)) ∧
  table (final (Routes.post_root body c)) = table c ++ [new_row c body] ∧
  auto_increment (final (Routes.post_root body c)) = auto_increment c + 1.
Proof.
  intros Ht Ho. unfold final. route_unfold. rewrite Ht. simpl.
  rewrite execute_quiet by (by rewrite Ho). simpl.
  erewrite execute_outage; [done|]. simpl. by rewrite Ho.
Qed.

Lemma create_read_back_failure_witness :
  (Routes.post_root milk (with_outages [None; Some "gone away"] fresh)).1
    = Ok (res_status_json 500 (JError "gone away")) ∧
  table (final (Routes.post_root milk (with_outages [None; Some "gone away"] fresh)))
    = [pending_row 1 "Buy milk" 0].
Proof.
  destruct (create_read_back_failure milk
              (with_outages [None; Some "gone away"] fresh) "gone away" [])
    as (Hresp & Htable & _); [reflexivity|reflexivity|].
  split; [exact Hresp|exact Htable].
Defined.

(** X4. Update is not atomic either: when the update succeeds on a stored
    task and the read-back fails, the route answers 500 although the rows of
    that id have been rewritten from the body. *)
Theorem update_read_back_failure (i : Z) (body : Body.t) (c : Conn)
    (msg : string) (o : list (option string)) :
  i ∈ id <$> table c →
  outages c = None :: Some msg :: o →
  (Routes.put_id i body c).1 = Ok (res_status_json 500 (JError msg)) ∧
  table (final (Routes.put_id i body c)) = updated_row c i body <$> table c ∧
  ∀ r, r ∈ table (final (Routes.put_id i body c)) → id r = i →
       title r = bind_param (Body.title body) ∧
       description r = bind_param (Body.description body) ∧
       status r = bind_param (Body.status body).
Proof.
  intros Hin Ho.
  assert (Routes.put_id i body c =
            (Ok (res_status_json 500 (JError msg)),
             {| table := updated_row c i body <$> table c;
                auto_increment := auto_increment c; clock := clock c;
                outages := o; journal := journal c ++ [update_stmt i body] |}))
    as ->.
  { route_unfold. rewrite execute_quiet by (by rewrite Ho). simpl.
    rewrite decide_False by (by rewrite filter_has_id_length; intros Hn).
    erewrite execute_outage; [|simpl; by rewrite Ho]. simpl. by rewrite Ho. }
  split; [done|]. split; [done|]. simpl.
  intros r Hr Hid. apply list_elem_of_fmap in Hr as (r1 & -> & _).
  apply updated_row_fields. unfold updated_row in Hid.
  by rewrite set_fields_id in Hid.
Qed.

Lemma update_read_back_failure_witness :
  (Routes.put_id 1 (only_status completed)
     (with_outages [None; Some "gone away"] milk_store)).1
    = Ok (res_status_json 500 (JError "gone away")) ∧
  status <$> table (final (Routes.put_id 1 (only_status completed)
                             (with_outages [None; Some "gone away"] milk_store)))
    = [Some "completed"].
Proof.
  destruct (update_read_back_failure 1 (only_status completed)
              (with_outages [None; Some "gone away"] milk_store) "gone away" [])
    as (Hresp & Htable & _); [vm_compute; constructor|reflexivity|].
  split; [exact Hresp|]. by rewrite Htable.
Defined.

(** X5. The two read routes never change what is stored, whether storage
    fails or not. *)
Theorem reads_change_nothing (c : Conn) (i : Z) :
  stored (final (Routes.get_root c)) = stored c ∧
  stored (final (Routes.get_id i c)) = stored c.
Proof.
  unfold final. split; route_unfold; step_execute; try done.
  by case_decide.
Qed.

(** X6. An update of an id that matches no stored task is answered 404
    "Task not found" and leaves what is stored as it was (the statement
    runs and matches no row). *)
Theorem update_missing_id_not_found (i : Z) (body : Body.t) (c : Conn) :
  quiet 1 (outages c) →
  i ∉ id <$> table c →
  (Routes.put_id i body c).1 = Ok (res_status_json 404 (JError "Task not found")) ∧
  stored (final (Routes.put_id i body c)) = stored c ∧
  journal (final (Routes.put_id i body c)) = journal c ++ [update_stmt i body].
Proof.
  intros Hq Hnotin. unfold final. route_unfold.
  rewrite execute_quiet by done. simpl.
  rewrite decide_True by (by apply filter_has_id_length).
  simpl. split; [done|]. split; [|done].
  unfold stored. simpl. f_equal.
  rewrite <- (list_fmap_id (table c)) at 2. apply list_fmap_ext.
  intros k r Hr. apply set_fields_miss. intros Heq. apply Hnotin.
  rewrite <- Heq. apply list_elem_of_fmap_2. by eapply list_elem_of_lookup_2.
Qed.

Lemma update_missing_id_not_found_witness :
  (Routes.put_id 7 milk milk_store).1
    = Ok (res_status_json 404 (JError "Task not found")) ∧
  stored (final (Routes.put_id 7 milk milk_store)) = stored milk_store.
Proof.
  destruct (update_missing_id_not_found 7 milk milk_store I) as (Hresp & Hst & _).
  - vm_compute. intros Hin. inversion Hin as [|? ? ? Hin']; inversion Hin'.
  - split; [exact Hresp|exact Hst].
Defined.

(** X7. On well-formed storage and without storage failure, getting the id
    of a stored task answers 200 with exactly that stored row. *)
Theorem get_returns_stored_row (c : Conn) (r : Task) :
  storage_ok c →
  quiet 1 (outages c) →
  r ∈ table c →
  (Routes.get_id (id r) c).1 = Ok (res_json (JTask r)).
Proof.
  intros (_ & _ & Hnd) Hq Hr. rewrite get_id_quiet by done.
  by rewrite (filter_has_id_unique (id r) r).
Qed.

Lemma get_returns_stored_row_witness :
  (Routes.get_id 1 milk_store).1 = Ok (res_json (JTask (pending_row 1 "Buy milk" 0))).
Proof.
  apply (get_returns_stored_row milk_store (pending_row 1 "Buy milk" 0)).
  - apply created_storage_ok, fresh_storage_ok.
  - exact I.
  - vm_compute. constructor.
Defined.

Lemma filter_others_length i (l : list Task) :
  NoDup (id <$> l) → i ∈ id <$> l →
  length l = S (length (filter (λ r, ¬ has_id i r) l)).
Proof.
  induction l as [|r l IH]; intros Hnd Hin.
  - by apply elem_of_nil in Hin.
  - rewrite fmap_cons in Hnd, Hin. apply NoDup_cons in Hnd as [Hnotin Hnd].
    destruct (decide (id r = i)) as [Heq|Hne].
    + rewrite filter_cons_False by (intros Hn; by apply Hn).
      rewrite filter_others_all; [done|]. by rewrite <- Heq.
    + rewrite filter_cons_True by done. simpl. f_equal. apply IH; [done|].
      apply elem_of_cons in Hin as [Heq|Hin]; [by subst|done].
Qed.

(** X8. Without storage failure, a delete removes the rows of the given id
    and nothing else: every row of another id stays, in the same order, the
    id counter is untouched, and on well-formed storage exactly one row goes
    when the id is stored. *)
Theorem delete_removes_only_that_id (c : Conn) (i : Z) :
  quiet 1 (outages c) →
  let c' := final (Routes.delete_id i c) in
  (∀ r, r ∈ table c' ↔ r ∈ table c ∧ id r ≠ i) ∧
  table c' `sublist_of` table c ∧
  auto_increment c' = auto_increment c ∧
  (storage_ok c → i ∈ id <$> table c → length (table c) = S (length (table c'))) ∧
  (storage_ok c → storage_ok c').
Proof.
  intros Hq c'. subst c'. rewrite delete_id_quiet by done. unfold final. simpl.
  split; [intros r; rewrite list_elem_of_filter; unfold has_id; tauto|].
  split; [apply sublist_filter|]. split; [done|]. split.
  - intros (_ & _ & Hnd) Hin. by apply filter_others_length.
  - intros Hok. by apply (run_stmt_storage_ok (DELETE_WHERE_id i) c).
Qed.

Lemma delete_removes_only_that_id_witness :
  table (final (Routes.delete_id 1 (created milk_store (titled "Bread"))))
    `sublist_of` table (created milk_store (titled "Bread")) ∧
  length (table (final (Routes.delete_id 1 (created milk_store (titled "Bread")))))
    = 1%nat.
Proof.
  destruct (delete_removes_only_that_id (created milk_store (titled "Bread")) 1 I)
    as (_ & Hsub & _ & Hlen & _).
  split; [exact Hsub|].
  assert (storage_ok (created milk_store (titled "Bread"))) as Hok
    by (do 2 apply created_storage_ok; apply fresh_storage_ok).
  specialize (Hlen Hok).
  assert (1 ∈ id <$> table (created milk_store (titled "Bread"))) as Hin
    by (vm_compute; constructor).
  specialize (Hlen Hin). apply Nat.succ_inj. by rewrite <- Hlen.
Defined.

(** X9. Update then get: without storage failure, getting a task right after
    updating it (whatever the clock reads by then) answers 200 with the very
    record the update answered. *)
Theorem update_then_get (c : Conn) (i : Z) (body : Body.t) (now : Z) :
  quiet 3 (outages c) →
  i ∈ id <$> table c →
  ∃ u c',
    Routes.put_id i body c = (Ok (res_json (JTask u)), c') ∧
    (Routes.get_id i (at_time now c')).1 = Ok (res_json (JTask u)).
Proof.
  intros Hq Hin.
  assert (quiet 2 (outages c)) as Hq2 by (eapply quiet_le; [|exact Hq]; lia).
  rewrite put_id_quiet by done.
  rewrite decide_False by (by rewrite filter_has_id_length; intros Hn).
  destruct (filter (has_id i) (updated_row c i body <$> table c))
    as [|u rest] eqn:Hf.
  { apply filter_has_id_nil in Hf. unfold updated_row in Hf.
    by rewrite fmap_set_fields_ids in Hf. }
  eexists _, _. split; [reflexivity|].
  rewrite get_id_quiet.
  - simpl. by rewrite Hf.
  - simpl. rewrite tail_tail_drop. by apply (quiet_drop 1 2).
Qed.

Lemma update_then_get_witness :
  ∃ u c',
    Routes.put_id 1 (only_status completed) milk_store = (Ok (res_json (JTask u)), c') ∧
    (Routes.get_id 1 (at_time 9 c')).1 = Ok (res_json (JTask u)).
Proof.
  apply (update_then_get milk_store 1 (only_status completed) 9).
  - exact I.
  - vm_compute. constructor.
Defined.

Lemma set_fields_twice now now' t d s i r :
  set_fields now' t d s i (set_fields now t d s i r) = set_fields now t d s i r.
Proof.
  unfold set_fields at 2. destruct (decide (has_id i r)) as [Hr|Hr].
  - unfold set_fields. rewrite decide_True by exact Hr. simpl.
    by repeat case_decide.
  - by rewrite !set_fields_miss.
Qed.

Lemma put_id_explicit i body c :
  quiet 2 (outages c) →
  i ∈ id <$> table c →
  Routes.put_id i body c =
    (Ok (res_json (first_row (updated_row c i body <$> filter (has_id i) (table c)))),
     {| table := updated_row c i body <$> table c;
        auto_increment := auto_increment c;
        clock := clock c;
        outages := drop 2 (outages c);
        journal := journal c ++ [update_stmt i body; SELECT_WHERE_id i] |}).
Proof.
  intros Hq Hin. rewrite put_id_quiet by done.
  rewrite decide_False by (by rewrite filter_has_id_length; intros Hn).
  unfold updated_row at 1. rewrite filter_fmap_set_fields.
  by rewrite tail_tail_drop, <- app_assoc.
Qed.

Lemma updated_row_twice c c' i body (l : list Task) :
  updated_row c' i body <$> (updated_row c i body <$> l)
  = updated_row c i body <$> l.
Proof.
  rewrite <- list_fmap_compose. apply list_fmap_ext. intros k r _.
  apply set_fields_twice.
Qed.

(** X10. Update is idempotent: without storage failure, sending the same
    update of a stored task a second time, at any later clock reading, gets
    the same answer and leaves the table exactly as the first update did
    (not even [updated_at] moves). *)
Theorem update_idempotent (c : Conn) (i : Z) (body : Body.t) (now : Z) :
  quiet 4 (outages c) →
  i ∈ id <$> table c →
  let c1 := final (Routes.put_id i body c) in
  let again := Routes.put_id i body (at_time now c1) in
  again.1 = (Routes.put_id i body c).1 ∧
  table (final again) = table c1.
Proof.
  intros Hq Hin c1 again.
  assert (quiet 2 (outages c)) as Hq2 by (eapply quiet_le; [|exact Hq]; lia).
  pose proof (put_id_explicit i body c Hq2 Hin) as H1.
  assert (table c1 = updated_row c i body <$> table c) as Htable
    by (subst c1; by rewrite H1).
  assert (outages c1 = drop 2 (outages c)) as Hout
    by (subst c1; by rewrite H1).
  assert (quiet 2 (outages (at_time now c1))) as Hq1.
  { simpl. rewrite Hout. by apply (quiet_drop 2 2). }
  assert (i ∈ id <$> table (at_time now c1)) as Hin1.
  { simpl. rewrite Htable. unfold updated_row. by rewrite fmap_set_fields_ids. }
  pose proof (put_id_explicit i body (at_time now c1) Hq1 Hin1) as H2.
  subst again. rewrite H2, H1. unfold final. cbn [fst snd table at_time].
  rewrite Htable. unfold updated_row at 2. rewrite filter_fmap_set_fields.
  change (set_fields (clock c) (bind_param (Body.title body))
            (bind_param (Body.description body))
            (bind_param (Body.status body)) i)
    with (updated_row c i body).
  by rewrite !updated_row_twice.
Qed.

Lemma update_idempotent_witness :
  table (final (Routes.put_id 1 (only_status completed)
                  (at_time 5 (final (Routes.put_id 1 (only_status completed)
                                       (at_time 3 milk_store))))))
  = table (final (Routes.put_id 1 (only_status completed) (at_time 3 milk_store))).
Proof.
  apply (update_idempotent (at_time 3 milk_store) 1 (only_status completed) 5).
  - exact I.
  - vm_compute. constructor.
Defined.

(** X11. Create then delete: on well-formed storage and without storage
    failure, deleting the task a create has just returned answers 200 and
    restores the table as it was before the create, while the id counter
    stays advanced, so the deleted id is not handed out again. *)
Theorem create_then_delete (c : Conn) (body : Body.t) (now : Z) :
  storage_ok c →
  quiet 3 (outages c) →
  truthy (Body.title body) = true →
  ∃ t c1,
    Routes.post_root body c = (Ok (res_status_json 201 (JTask t)), c1) ∧
    (Routes.delete_id (id t) (at_time now c1)).1
      = Ok (res_json (JMessage "Task deleted successfully")) ∧
    table (final (Routes.delete_id (id t) (at_time now c1))) = table c ∧
    id t < auto_increment (final (Routes.delete_id (id t) (at_time now c1))).
Proof.
  intros Hok Hq Ht. exists (new_row c body), (created c body).
  rewrite post_root_created; [|done|done|by eapply quiet_le; [|exact Hq]; lia].
  split; [done|].
  rewrite delete_id_quiet by (by apply (quiet_drop 1 2)).
  unfold final. simpl.
  rewrite !filter_app, !filter_cons_True, !filter_nil by done.
  rewrite (proj2 (filter_has_id_nil _ _) (storage_ok_fresh_id c Hok)).
  rewrite filter_cons_False by (intros Hn; by apply Hn).
  rewrite filter_others_all by (by apply storage_ok_fresh_id).
  rewrite decide_False by done. rewrite app_nil_r.
  split; [done|]. split; [done|]. lia.
Qed.

Lemma create_then_delete_witness :
  ∃ t c1,
    Routes.post_root (titled "Bread") milk_store
      = (Ok (res_status_json 201 (JTask t)), c1) ∧
    table (final (Routes.delete_id (id t) (at_time 4 c1))) = table milk_store.
Proof.
  destruct (create_then_delete milk_store (titled "Bread") 4)
    as (t & c1 & Hpost & _ & Htable & _).
  - apply created_storage_ok, fresh_storage_ok.
  - exact I.
  - reflexivity.
  - by exists t, c1.
Defined.

Lemma serve_counter_mono r c :
  auto_increment c <= auto_increment (final (serve r c)).
Proof.
  unfold final. destruct r as [|i|b|i b|i]; simpl; route_unfold.
  - step_execute; simpl; lia.
  - step_execute; [|case_decide]; simpl; lia.
  - destruct (truthy (Body.title b)); simpl; [|lia].
    step_execute; [|step_execute]; simpl; lia.
  - step_execute; [|case_decide; simpl; [|step_execute]]; simpl; lia.
  - step_execute; [|case_decide]; simpl; lia.
Qed.

(** X12. Well-formed storage is an invariant of the server: starting from
    storage whose ids are distinct, positive and below the id counter (an
    empty table, for one), it stays so after any sequence of requests, at any
    clock readings and whichever storage calls fail; and the id counter never
    goes back, so an id is never handed out twice. *)
Theorem storage_stays_well_formed (arrivals : list Arrival) (c : Conn) :
  storage_ok c →
  storage_ok (serve_all arrivals c) ∧
  auto_increment c <= auto_increment (serve_all arrivals c) ∧
  Forall (λ r, id r < auto_increment (serve_all arrivals c)) (table c).
Proof.
  revert c. induction arrivals as [|a arrivals IH]; intros c Hok.
  - split; [done|]. split; [done|]. destruct Hok as (_ & Hids & _).
    eapply Forall_impl; [exact Hids|]. simpl. intros r Hr. lia.
  - assert (storage_ok (arrive c a)) as Hok'.
    { unfold arrive. apply serve_storage_ok. done. }
    assert (auto_increment c <= auto_increment (arrive c a)) as Hmono.
    { unfold arrive.
      by pose proof (serve_counter_mono (request a)
                       (with_outages (failing a) (at_time (arrives_at a) c))). }
    destruct (IH (arrive c a) Hok') as (Hfinal & Hle & _).
    unfold serve_all in *. simpl. split; [done|]. split; [lia|].
    destruct Hok as (_ & Hids & _).
    eapply Forall_impl; [exact Hids|]. simpl. intros r Hr. lia.
Qed.

Lemma storage_stays_well_formed_witness :
  storage_ok (serve_all
    [ {| arrives_at := 1; failing := []; request := POST_tasks milk |};
      {| arrives_at := 2; failing := [None; Some "gone away"];
         request := POST_tasks (titled "Bread") |};
      {| arrives_at := 3; failing := []; request := DELETE_task 1 |};
      {| arrives_at := 4; failing := []; request := POST_tasks (titled "Eggs") |} ]
    fresh).
Proof. by apply (storage_stays_well_formed _ fresh), fresh_storage_ok. Defined.

(** * Further properties of the API client and the page *)

(** X13. [taskService.getTask]: with the server reachable, storage well
    formed and not failing, the call sends one GET for the id, resolves with
    the stored task of that id when there is one and rejects when there is
    none (the 404 never reaches the caller as data); it changes nothing
    stored. *)
Theorem getTask_resolves_or_rejects (n : Net) (i : Z) :
  offline n = false →
  quiet 1 (outages (backend n)) →
  storage_ok (backend n) →
  (∀ r, r ∈ table (backend n) → id r = i → (taskService.getTask i n).1 = Ok r) ∧
  (i ∉ id <$> table (backend n) → ∃ e, (taskService.getTask i n).1 = Throw e) ∧
  wire (taskService.getTask i n).2 = wire n ++ [GET_task i] ∧
  stored (backend (taskService.getTask i n).2) = stored (backend n).
Proof.
  intros Hon Hq (_ & _ & Hnd).
  service_unfold. unfold axios. simpl. rewrite Hon, get_id_quiet by done.
  split; [|split].
  - intros r Hr Hid. by rewrite (filter_has_id_unique i r).
  - intros Hnotin. rewrite (proj2 (filter_has_id_nil i _) Hnotin). simpl. eauto.
  - destruct (filter (has_id i) (table (backend n))); simpl; done.
Qed.

Lemma getTask_resolves_or_rejects_witness :
  (taskService.getTask 1 (net milk_world)).1 = Ok (pending_row 1 "Buy milk" 0) ∧
  ∃ e, (taskService.getTask 7 (net milk_world)).1 = Throw e.
Proof.
  assert (storage_ok (backend (net milk_world))) as Hok
    by apply created_storage_ok, fresh_storage_ok.
  split.
  - destruct (getTask_resolves_or_rejects (net milk_world) 1 eq_refl I Hok)
      as (Hhit & _).
    apply Hhit; [vm_compute; constructor|reflexivity].
  - destruct (getTask_resolves_or_rejects (net milk_world) 7 eq_refl I Hok)
      as (_ & Hmiss & _).
    apply Hmiss. vm_compute. intros Hin.
    inversion Hin as [|? ? ? Hin']; inversion Hin'.
Defined.

Lemma loadTasks_run w :
  Page.loadTasks w =
    match taskService.getTasks (net w) with
    | (Ok data, n') =>
        (Ok tt,
         {| home := {| tasks := data; loading := false; error := error (home w);
                       showForm := showForm (home w);
                       editingTask := editingTask (home w) |};
            net := n' |})
    | (Throw e, n') =>
        (Ok tt,
         {| home := {| tasks := tasks (home w); loading := false;
                       error := Some "Failed to load tasks";
                       showForm := showForm (home w);
                       editingTask := editingTask (home w) |};
            net := n' |})
    end.
Proof.
  handler_unfold. simpl.
  by destruct (taskService.getTasks (net w)) as [[data|e] n'].
Qed.

Lemma handleCreateTask_run render taskData w :
  Page.handleCreateTask render taskData w =
    match taskService.createTask taskData (net w) with
    | (Ok newTask, n') =>
        (Ok tt,
         {| home := {| tasks := newTask :: tasks render;
                       loading := loading (home w); error := error (home w);
                       showForm := false;
                       editingTask := editingTask (home w) |};
            net := n' |})
    | (Throw e, n') =>
        (Ok tt,
         {| home := {| tasks := tasks (home w); loading := loading (home w);
                       error := Some "Failed to create task";
                       showForm := showForm (home w);
                       editingTask := editingTask (home w) |};
            net := n' |})
    end.
Proof.
  handler_unfold.
  by destruct (taskService.createTask taskData (net w)) as [[t|e] n'].
Qed.

Lemma handleEditTask_run render editing taskData w :
  editingTask render = Some editing →
  Page.handleEditTask render taskData w =
    match taskService.updateTask (id editing) taskData (net w) with
    | (Ok u, n') =>
        (Ok tt,
         {| home := {| tasks := (λ task, if decide (id task = id editing)
                                         then u else task) <$> tasks render;
                       loading := loading (home w); error := error (home w);
                       showForm := false; editingTask := None |};
            net := n' |})
    | (Throw e, n') =>
        (Ok tt,
         {| home := {| tasks := tasks (home w); loading := loading (home w);
                       error := Some "Failed to update task";
                       showForm := showForm (home w);
                       editingTask := editingTask (home w) |};
            net := n' |})
    end.
Proof.
  intros He. handler_unfold. rewrite He.
  by destruct (taskService.updateTask (id editing) taskData (net w)) as [[u|e] n'].
Qed.

Lemma createTask_rejected body n :
  truthy (Body.title body) = false →
  ∃ e, taskService.createTask body n = (Throw e, sent (POST_tasks body) n).
Proof.
  intros Ht. service_unfold. unfold axios. simpl.
  destruct (offline n) eqn:Hoff; [eauto|].
  rewrite post_root_falsy by done. simpl.
  by eexists.
Qed.

(** X14. Loading: [loadTasks] sends one GET for the list and always ends with
    [loading] cleared; when the call resolves the list replaces [tasks] and
    the error is untouched, when it fails [tasks] is kept and the error
    becomes "Failed to load tasks"; the form state is never touched.  With
    the server reachable and storage not failing, the page ends up holding
    the stored tasks, newest first. *)
Theorem load_tasks_outcome (w : World) :
  let w' := fire (λ _, Page.loadTasks) w in
  let call := taskService.getTasks (net w) in
  wire (net w') = wire (net w) ++ [GET_tasks] ∧
  loading (home w') = false ∧
  showForm (home w') = showForm (home w) ∧
  editingTask (home w') = editingTask (home w) ∧
  match call.1 with
  | Ok data => tasks (home w') = data ∧ error (home w') = error (home w)
  | Throw _ => tasks (home w') = tasks (home w) ∧
               error (home w') = Some "Failed to load tasks"
  end ∧
  (offline (net w) = false → quiet 1 (outages (backend (net w))) →
   tasks (home w') = order_by_created_at_desc (table (backend (net w))) ∧
   error (home w') = error (home w)).
Proof.
  intros w' call. subst w' call. unfold fire. rewrite loadTasks_run.
  pose proof (getTasks_wire (net w)) as Hw.
  assert (offline (net w) = false → quiet 1 (outages (backend (net w))) →
          (taskService.getTasks (net w)).1
          = Ok (order_by_created_at_desc (table (backend (net w))))) as Hreach.
  { intros Hon Hq. service_unfold. unfold axios. simpl.
    by rewrite Hon, get_root_quiet. }
  destruct (taskService.getTasks (net w)) as [[data|e] n']; simpl in *.
  - do 5 (split; [done|]). intros Hon Hq.
    specialize (Hreach Hon Hq). by injection Hreach as ->.
  - do 5 (split; [done|]). intros Hon Hq. by specialize (Hreach Hon Hq).
Qed.

Lemma load_tasks_outcome_witness :
  tasks (home (fire (λ _, Page.loadTasks) (page_before_mount milk_store)))
    = [pending_row 1 "Buy milk" 0] ∧
  loading (home (fire (λ _, Page.loadTasks) (page_before_mount milk_store))) = false.
Proof.
  destruct (load_tasks_outcome (page_before_mount milk_store))
    as (_ & Hloading & _ & _ & _ & Hreach).
  split; [|exact Hloading]. by destruct (Hreach eq_refl I) as [-> _].
Defined.

(** X15. Submitting the create form sends one POST with the form data.  When
    the call resolves, the returned task is put in front of the list and the
    form closes; when it fails, the error becomes "Failed to create task" and
    the list and the open form are kept.  A form without a title always
    fails, and the server is left untouched. *)
Theorem create_submit_outcome (w : World) (taskData : Body.t) :
  let w' := fire (λ render, Page.handleCreateTask render taskData) w in
  let call := taskService.createTask taskData (net w) in
  wire (net w') = wire (net w) ++ [POST_tasks taskData] ∧
  loading (home w') = loading (home w) ∧
  editingTask (home w') = editingTask (home w) ∧
  match call.1 with
  | Ok t => tasks (home w') = t :: tasks (home w) ∧
            showForm (home w') = false ∧
            error (home w') = error (home w)
  | Throw _ => tasks (home w') = tasks (home w) ∧
               showForm (home w') = showForm (home w) ∧
               error (home w') = Some "Failed to create task"
  end ∧
  (truthy (Body.title taskData) = false →
   error (home w') = Some "Failed to create task" ∧
   tasks (home w') = tasks (home w) ∧
   backend (net w') = backend (net w)).
Proof.
  intros w' call. subst w' call. unfold fire. rewrite handleCreateTask_run.
  pose proof (createTask_wire taskData (net w)) as Hw.
  pose proof (createTask_rejected taskData (net w)) as Hrej.
  destruct (taskService.createTask taskData (net w)) as [[t|e] n']; simpl in *.
  - do 4 (split; [done|]). intros Ht. by destruct (Hrej Ht) as [e He].
  - do 4 (split; [done|]). intros Ht. destruct (Hrej Ht) as [e' He].
    by injection He as _ ->.
Qed.

Lemma create_submit_outcome_witness :
  error (home (fire (λ render, Page.handleCreateTask render
                                 (Body.Build (str EmptyString) undefined undefined))
                    milk_world))
  = Some "Failed to create task".
Proof.
  destruct (create_submit_outcome milk_world
              (Body.Build (str EmptyString) undefined undefined))
    as (_ & _ & _ & _ & Hfalsy).
  by destruct (Hfalsy eq_refl) as [-> _].
Defined.

(** X16. Submitting the form while an editing target is set sends one PUT on
    the target's id with the form data.  When the call resolves, the elements
    of that id are replaced in place by the returned task, the target is
    cleared and the form closes; when it fails only the error changes, to
    "Failed to update task", and the form stays open on its target. *)
Theorem edit_submit_outcome (confirm : string → bool) (w : World)
    (editing : Task) (taskData : Body.t) :
  editingTask (home w) = Some editing →
  let w' := fire (dispatch confirm (FormSubmit taskData)) w in
  let call := taskService.updateTask (id editing) taskData (net w) in
  wire (net w') = wire (net w) ++ [PUT_task (id editing) taskData] ∧
  match call.1 with
  | Ok u =>
      home w' = {| tasks := (λ task, if decide (id task = id editing)
                                     then u else task) <$> tasks (home w);
                   loading := loading (home w); error := error (home w);
                   showForm := false; editingTask := None |} ∧
      length (tasks (home w')) = length (tasks (home w)) ∧
      (∀ k t, tasks (home w) !! k = Some t →
              tasks (home w') !! k
              = Some (if decide (id t = id editing) then u else t))
  | Throw _ =>
      home w' = {| tasks := tasks (home w); loading := loading (home w);
                   error := Some "Failed to update task";
                   showForm := showForm (home w);
                   editingTask := Some editing |}
  end.
Proof.
  intros He w' call. subst w' call. unfold fire. simpl. rewrite He.
  rewrite (handleEditTask_run _ editing) by done.
  pose proof (updateTask_wire (id editing) taskData (net w)) as Hw.
  destruct (taskService.updateTask (id editing) taskData (net w))
    as [[u|e] n']; simpl in *.
  - split; [done|]. split; [done|]. split; [by rewrite length_fmap|].
    intros k t Hk. by apply fmap_replace_lookup.
  - split; [done|]. by rewrite He.
Qed.

Lemma edit_submit_outcome_witness :
  title <$> tasks (home (fire (dispatch (λ _, true) (FormSubmit (titled "Oat milk")))
                         (fire (λ _, Page.openEditForm (pending_row 1 "Buy milk" 0))
                               milk_world)))
  = [Some "Oat milk"].
Proof.
  pose proof (edit_submit_outcome (λ _, true)
                (fire (λ _, Page.openEditForm (pending_row 1 "Buy milk" 0)) milk_world)
                (pending_row 1 "Buy milk" 0) (titled "Oat milk") eq_refl) as [_ Hcase].
  assert ((taskService.updateTask (id (pending_row 1 "Buy milk" 0)) (titled "Oat milk")
             (net (fire (λ _, Page.openEditForm (pending_row 1 "Buy milk" 0)) milk_world))).1
          = Ok {| id := 1; title := Some "Oat milk"; description := None;
                  status := None; created_at := 0; updated_at := 0 |}) as Hcall
    by by vm_compute.
  rewrite Hcall in Hcase. destruct Hcase as (Hhome & _).
  by rewrite Hhome.
Defined.

Lemma dispatch_wire confirm e w :
  wire (net (fire (dispatch confirm e) w))
  = wire (net w)
      ++ requests_of (confirm "Are you sure you want to delete this task?") e (home w).
Proof.
  unfold fire. destruct e as [| |taskData| |task|i|i s]; simpl;
    try (by rewrite app_nil_r).
  - by rewrite loadTasks_net, getTasks_wire.
  - destruct (editingTask (home w)) as [editing|] eqn:He.
    + by rewrite (handleEditTask_net _ editing), updateTask_wire.
    + by rewrite handleCreateTask_net, createTask_wire.
  - destruct (confirm "Are you sure you want to delete this task?") eqn:Hc.
    + rewrite handleDeleteTask_confirmed by done.
      pose proof (deleteTask_wire i (net w)) as Hw.
      by destruct (taskService.deleteTask i (net w)) as [[u|err] n'].
    + rewrite handleDeleteTask_declined by done. by rewrite app_nil_r.
  - rewrite handleStatusChange_run.
    pose proof (updateTask_wire i (only_status s) (net w)) as Hw.
    by destruct (taskService.updateTask i (only_status s) (net w)) as [[u|err] n'].
Qed.

(** X17. Each user intent puts at most one request on the wire, fixed by the
    event and the state it fires in, whatever the outcome of the call: the
    page never retries and never reloads the list after a change.  Mounting
    sends the list GET; a form submit sends a PUT on the editing target when
    one is set and a POST otherwise; a confirmed delete sends the DELETE; a
    status change sends a PUT with the status alone; toggling, cancelling and
    opening the form send nothing. *)
Theorem event_requests (confirm : string → bool) (e : Event) (w : World) :
  let asked := confirm "Are you sure you want to delete this task?" in
  wire (net (fire (dispatch confirm e) w))
    = wire (net w) ++ requests_of asked e (home w) ∧
  (length (requests_of asked e (home w)) ≤ 1)%nat.
Proof.
  split; [apply dispatch_wire|].
  destruct e; simpl; try lia.
  - destruct (editingTask (home w)); simpl; lia.
  - destruct (confirm _); simpl; lia.
Qed.

Lemma tick_home now w : home (tick now w) = home w.
Proof. done. Qed.

Lemma tick_wire now w : wire (net (tick now w)) = wire (net w).
Proof. done. Qed.

Lemma run_nil w : run [] w = w.
Proof. done. Qed.

Lemma run_cons s steps w : run (s :: steps) w = run steps (step w s).
Proof.
  unfold run, settled, play. simpl.
  by destruct steps as [|s' steps].
Qed.

(** X18. How the form is wired.  Opening the form on a task and submitting
    updates that task; cancelling and then submitting creates a task; and
    since the toggle button hides the form without clearing the editing
    target, hiding and showing the form again after opening it on a task
    still submits an update of that task, not a create. *)
Theorem form_wiring (w : World) (t : Task) (d : Body.t) (now : Z) (a : bool) :
  let at_ e := {| step_at := now; answer := a; event := e |} in
  wire (net (run [at_ (CardEdit t); at_ (FormSubmit d)] w))
    = wire (net w) ++ [PUT_task (id t) d] ∧
  wire (net (run [at_ FormCancel; at_ (FormSubmit d)] w))
    = wire (net w) ++ [POST_tasks d] ∧
  wire (net (run [at_ (CardEdit t); at_ ToggleForm; at_ ToggleForm;
                  at_ (FormSubmit d)] w))
    = wire (net w) ++ [PUT_task (id t) d] ∧
  showForm (home (run [at_ (CardEdit t); at_ ToggleForm; at_ ToggleForm] w)) = true.
Proof.
  intros at_. rewrite !run_cons, !run_nil. unfold step.
  split; [|split; [|split]]; try done; rewrite dispatch_wire; simpl; done.
Qed.

Lemma dispatch_error confirm e w :
  error (home (fire (dispatch confirm e) w)) = error (home w) ∨
  ∃ m, m ∈ banners ∧ error (home (fire (dispatch confirm e) w)) = Some m.
Proof.
  unfold fire, banners. destruct e as [| |taskData| |task|i|i s]; simpl;
    try (by left).
  - rewrite loadTasks_run.
    destruct (taskService.getTasks (net w)) as [[data|err] n']; simpl;
      [by left|right; eexists; split; [|done]; repeat constructor].
  - destruct (editingTask (home w)) as [editing|] eqn:He.
    + rewrite (handleEditTask_run _ editing) by done.
      destruct (taskService.updateTask _ _ (net w)) as [[u|err] n']; simpl;
        [by left|right; eexists; split; [|done]; repeat constructor].
    + rewrite handleCreateTask_run.
      destruct (taskService.createTask _ (net w)) as [[u|err] n']; simpl;
        [by left|right; eexists; split; [|done]; repeat constructor].
  - destruct (confirm "Are you sure you want to delete this task?") eqn:Hc.
    + rewrite handleDeleteTask_confirmed by done.
      destruct (taskService.deleteTask i (net w)) as [[u|err] n']; simpl;
        [by left|right; eexists; split; [|done]; repeat constructor].
    + rewrite handleDeleteTask_declined by done. by left.
  - rewrite handleStatusChange_run.
    destruct (taskService.updateTask _ _ (net w)) as [[u|err] n']; simpl;
      [by left|right; eexists; split; [|done]; repeat constructor].
Qed.

(** X19. The error banner is never cleared: an event leaves the error as it
    was or sets it to one of the five fixed banner texts, so once an error is
    shown one stays shown through every later sequence of events, successful
    or not. *)
Theorem error_is_never_cleared (steps : list Step) (w : World) :
  is_Some (error (home w)) →
  is_Some (error (home (run steps w))) ∧
  (error (home (run steps w)) = error (home w) ∨
   ∃ m, m ∈ banners ∧ error (home (run steps w)) = Some m).
Proof.
  revert w. induction steps as [|s steps IH]; intros w Herr.
  - split; [done|by left].
  - rewrite run_cons.
    pose proof (dispatch_error (λ _, answer s) (event s) (tick (step_at s) w))
      as Hstep.
    fold (step w s) in Hstep. rewrite tick_home in Hstep.
    assert (is_Some (error (home (step w s)))) as Herr'.
    { destruct Hstep as [->|(m & _ & ->)]; [done|by eexists]. }
    destruct (IH (step w s) Herr') as (Hsome & Hcases).
    split; [done|].
    destruct Hcases as [Heq|Hbanner]; [|by right].
    rewrite Heq. destruct Hstep as [->|Hbanner]; [by left|by right].
Qed.

Lemma error_is_never_cleared_witness :
  is_Some (error (home (run
    [ {| step_at := 1; answer := true; event := CardDelete 7 |};
      {| step_at := 2; answer := true; event := CardStatusChange 1 completed |} ]
    milk_world))).
Proof.
  assert (is_Some (error (home (run
            [ {| step_at := 1; answer := true; event := CardDelete 7 |} ]
            milk_world)))) as Hfirst by (vm_compute; by eexists).
  apply (error_is_never_cleared
           [ {| step_at := 2; answer := true; event := CardStatusChange 1 completed |} ]
           _ Hfirst).
Defined.

(** ** The client on a healthy server *)

Lemma updated_row_miss c i body (l : list Task) :
  i ∉ id <$> l → updated_row c i body <$> l = l.
Proof.
  intros Hnotin. rewrite <- (list_fmap_id l) at 2. apply list_fmap_ext.
  intros k r Hr. apply set_fields_miss. intros Heq. apply Hnotin.
  rewrite <- Heq. apply list_elem_of_fmap_2. by eapply list_elem_of_lookup_2.
Qed.

Lemma getTasks_explicit n :
  offline n = false →
  quiet 1 (outages (backend n)) →
  taskService.getTasks n =
    (Ok (order_by_created_at_desc (table (backend n))),
     with_backend (log_stmt SELECT_all_ORDER_BY_created_at_DESC
                            (pop_outage (backend n)))
                  (sent GET_tasks n)).
Proof.
  intros Hon Hq. service_unfold. unfold axios. simpl.
  by rewrite Hon, get_root_quiet.
Qed.

Lemma createTask_explicit body n :
  offline n = false →
  storage_ok (backend n) →
  quiet 2 (outages (backend n)) →
  truthy (Body.title body) = true →
  taskService.createTask body n =
    (Ok (new_row (backend n) body),
     with_backend (created (backend n) body) (sent (POST_tasks body) n)).
Proof.
  intros Hon Hok Hq Ht. service_unfold. unfold axios. simpl.
  by rewrite Hon, post_root_created.
Qed.

Lemma updateTask_explicit i body n :
  offline n = false →
  quiet 2 (outages (backend n)) →
  i ∈ id <$> table (backend n) →
  ∃ r0,
    r0 ∈ table (backend n) ∧ id r0 = i ∧
    taskService.updateTask i body n =
      (Ok (updated_row (backend n) i body r0),
       with_backend
         {| table := updated_row (backend n) i body <$> table (backend n);
            auto_increment := auto_increment (backend n);
            clock := clock (backend n);
            outages := drop 2 (outages (backend n));
            journal := journal (backend n)
                         ++ [update_stmt i body; SELECT_WHERE_id i] |}
         (sent (PUT_task i body) n)).
Proof.
  intros Hon Hq Hin.
  destruct (put_id_hit i body (backend n) Hq Hin) as (r0 & Hr0 & Hid & Hput).
  exists r0. split; [done|]. split; [done|].
  service_unfold. unfold axios. simpl. by rewrite Hon, Hput.
Qed.

Lemma updateTask_missing i body n :
  offline n = false →
  quiet 1 (outages (backend n)) →
  i ∉ id <$> table (backend n) →
  ∃ e,
    taskService.updateTask i body n =
      (Throw e,
       with_backend
         {| table := table (backend n);
            auto_increment := auto_increment (backend n);
            clock := clock (backend n);
            outages := tail (outages (backend n));
            journal := journal (backend n) ++ [update_stmt i body] |}
         (sent (PUT_task i body) n)).
Proof.
  intros Hon Hq Hnotin. service_unfold. unfold axios. simpl. rewrite Hon.
  route_unfold. rewrite execute_quiet by done. simpl.
  rewrite decide_True by (by apply filter_has_id_length). simpl.
  eexists. do 2 f_equal. fold (updated_row (backend n) i body).
  change (set_fields (clock (backend n)) (bind_param (Body.title body))
            (bind_param (Body.description body))
            (bind_param (Body.status body)) i)
    with (updated_row (backend n) i body).
  by rewrite updated_row_miss.
Qed.

Lemma deleteTask_explicit i n :
  offline n = false →
  quiet 1 (outages (backend n)) →
  ∃ outcome,
    taskService.deleteTask i n =
      (outcome,
       with_backend
         {| table := filter (λ r, ¬ has_id i r) (table (backend n));
            auto_increment := auto_increment (backend n);
            clock := clock (backend n);
            outages := tail (outages (backend n));
            journal := journal (backend n) ++ [DELETE_WHERE_id i] |}
         (sent (DELETE_task i) n)) ∧
    (i ∈ id <$> table (backend n) → outcome = Ok tt) ∧
    (i ∉ id <$> table (backend n) → ∃ e, outcome = Throw e).
Proof.
  intros Hon Hq. service_unfold. unfold axios. simpl.
  rewrite Hon, delete_id_quiet by done.
  destruct (decide (length (filter (has_id i) (table (backend n))) = 0%nat))
    as [Hz|Hnz]; simpl.
  - eexists. split; [reflexivity|]. apply filter_has_id_length in Hz.
    split; [done|eauto].
  - eexists. split; [reflexivity|]. rewrite filter_has_id_length in Hnz.
    split; [done|]. intros Hn. by destruct Hnz.
Qed.

Lemma replace_matches_update c i body (l : list Task) r0 :
  NoDup (id <$> l) → r0 ∈ l → id r0 = i →
  (λ task, if decide (id task = i) then updated_row c i body r0 else task) <$> l
  = updated_row c i body <$> l.
Proof.
  intros Hnd Hr0 Hid. apply list_fmap_ext. intros k r Hr.
  apply list_elem_of_lookup_2 in Hr.
  destruct (decide (id r = i)) as [Heq|Hne].
  - assert ([r] = [r0]) as Hsame
      by (rewrite <- (filter_has_id_unique i r l), <- (filter_has_id_unique i r0 l);
          done).
    by injection Hsame as ->.
  - unfold updated_row. by rewrite set_fields_miss.
Qed.

Lemma quiet_nil n : quiet n [].
Proof. by destruct n. Qed.

Lemma synced_fire confirm e w :
  synced w → synced (fire (dispatch confirm e) w).
Proof.
  intros (Hon & Ho & Hok & Hperm).
  assert (∀ k, quiet k (outages (backend (net w)))) as Hq
    by (intros k; rewrite Ho; apply quiet_nil).
  pose proof Hok as (_ & _ & Hnd).
  unfold fire. destruct e as [| |taskData| |task|i|i s]; simpl; try done.
  - (* mount *)
    rewrite loadTasks_run, getTasks_explicit by done. simpl.
    unfold synced. simpl. rewrite Hon, Ho.
    split; [done|]. split; [done|]. split; [done|].
    symmetry. apply order_by_perm.
  - (* form submit *)
    destruct (editingTask (home w)) as [editing|] eqn:He.
    + rewrite (handleEditTask_run _ editing) by done.
      destruct (decide (id editing ∈ id <$> table (backend (net w)))) as [Hin|Hout].
      * destruct (updateTask_explicit (id editing) taskData (net w) Hon (Hq 2%nat) Hin)
          as (r0 & Hr0 & Hid & ->).
        unfold synced. simpl. rewrite Hon, Ho.
        split; [done|]. split; [done|]. split.
        { by apply (run_stmt_storage_ok (update_stmt (id editing) taskData)
                      (backend (net w))). }
        rewrite Hperm. by rewrite (replace_matches_update _ _ _ _ r0).
      * destruct (updateTask_missing (id editing) taskData (net w) Hon (Hq 1%nat) Hout)
          as (err & ->).
        unfold synced. simpl. by rewrite Hon, Ho.
    + rewrite handleCreateTask_run.
      destruct (truthy (Body.title taskData)) eqn:Ht.
      * rewrite createTask_explicit by done.
        unfold synced. simpl. rewrite Hon, Ho.
        split; [done|]. split; [done|].
        split; [by apply (created_storage_ok taskData)|].
        rewrite Hperm. apply Permutation_cons_append.
      * destruct (createTask_rejected taskData (net w) Ht) as (err & ->).
        by unfold synced.
  - (* delete *)
    destruct (confirm "Are you sure you want to delete this task?") eqn:Hc.
    + rewrite handleDeleteTask_confirmed by done.
      destruct (deleteTask_explicit i (net w) Hon (Hq 1%nat))
        as (outcome & -> & Hhit & Hmiss).
      destruct (decide (i ∈ id <$> table (backend (net w)))) as [Hin|Hout].
      * rewrite (Hhit Hin). unfold synced. simpl. rewrite Hon, Ho.
        split; [done|]. split; [done|]. split.
        { by apply (run_stmt_storage_ok (DELETE_WHERE_id i) (backend (net w))). }
        by rewrite Hperm.
      * destruct (Hmiss Hout) as (err & ->). unfold synced. simpl.
        rewrite Hon, Ho, filter_others_all by done. done.
    + by rewrite handleDeleteTask_declined.
  - (* status change *)
    rewrite handleStatusChange_run.
    destruct (decide (i ∈ id <$> table (backend (net w)))) as [Hin|Hout].
    + destruct (updateTask_explicit i (only_status s) (net w) Hon (Hq 2%nat) Hin)
        as (r0 & Hr0 & Hid & ->).
      unfold synced. simpl. rewrite Hon, Ho.
      split; [done|]. split; [done|]. split.
      { by apply (run_stmt_storage_ok (update_stmt i (only_status s))
                    (backend (net w))). }
      rewrite Hperm. by rewrite (replace_matches_update _ _ _ _ r0).
    + destruct (updateTask_missing i (only_status s) (net w) Hon (Hq 1%nat) Hout)
        as (err & ->).
      unfold synced. simpl. by rewrite Hon, Ho.
Qed.

Lemma synced_tick now w : synced w → synced (tick now w).
Proof. done. Qed.

Lemma act_fresh s sc :
  shown sc = home (world sc) → world (act s sc) = step (world sc) s.
Proof. intros Hshown. unfold act, step, fire. simpl. by rewrite Hshown. Qed.

Lemma sync_play moves :
  ∀ fresh sc,
    synced (world sc) →
    (fresh = true → shown sc = home (world sc)) →
    fires_fresh fresh moves →
    synced (world (play moves sc)).
Proof.
  induction moves as [|m moves IH]; intros fresh sc Hsync Hshown Hfresh; [done|].
  destruct m as [|s].
  - change (play (Paint :: moves) sc) with (play moves (paint sc)).
    by apply (IH true).
  - change (play (Act s :: moves) sc) with (play moves (act s sc)).
    destruct Hfresh as [-> Hfresh]. apply (IH false); [|done|done].
    rewrite (act_fresh s sc) by by apply Hshown.
    unfold step. by apply synced_fire, synced_tick.
Qed.

(** X20. The page stays in step with the server, as long as every action
    fires on a page that React has rendered since the previous action (so
    that each handler closes over the state the previous one left).  With
    the server reachable and storage well formed and not failing, once the
    in-memory list holds exactly the stored tasks it does so again after
    every such schedule: creates, edits, status changes, confirmed or
    declined deletes, requests the server turns down with 400 or 404.
    Mounting establishes this from any state of the page.  (Two actions
    fired from one render are another matter: see X24.) *)
Theorem page_stays_in_sync (moves : list Move) (sc : Screen) :
  fires_fresh false moves →
  (synced (world sc) → synced (world (play moves sc))) ∧
  (offline (net (world sc)) = false →
   outages (backend (net (world sc))) = [] →
   storage_ok (backend (net (world sc))) →
   ∀ now a,
     synced (world (play (Act {| step_at := now; answer := a; event := Mount |}
                            :: moves) sc))).
Proof.
  intros Hfresh. split.
  - intros Hsync. by apply (sync_play moves false).
  - intros Hon Ho Hok now a.
    change (play (Act {| step_at := now; answer := a; event := Mount |} :: moves) sc)
      with (play moves (act {| step_at := now; answer := a; event := Mount |} sc)).
    apply (sync_play moves false); [|done|done].
    simpl. unfold final.
    rewrite loadTasks_run, getTasks_explicit; simpl; [|done|by rewrite Ho].
    unfold synced. simpl. rewrite Hon, Ho.
    split; [done|]. split; [done|]. split; [done|].
    symmetry. apply order_by_perm.
Qed.

Lemma page_stays_in_sync_witness :
  tasks (home (world (play shopping_session (painted (page_before_mount milk_store)))))
  ≡ₚ table (backend (net (world (play shopping_session
                                   (painted (page_before_mount milk_store)))))).
Proof.
  destruct (page_stays_in_sync (tail shopping_session)
              (painted (page_before_mount milk_store))) as [_ Hmount].
  - simpl. done.
  - assert (storage_ok (backend (net (page_before_mount milk_store)))) as Hok
      by apply created_storage_ok, fresh_storage_ok.
    by destruct (Hmount eq_refl eq_refl Hok 1 true) as (_ & _ & _ & Hperm).
Defined.

(** ** Listing order under updates and deletes *)

Lemma insert_desc_fmap (f : Task → Task) r l :
  (∀ x, created_at (f x) = created_at x) →
  insert_desc (f r) (f <$> l) = f <$> insert_desc r l.
Proof.
  intros Hf. induction l as [|y l IH]; [done|].
  rewrite fmap_cons. simpl. rewrite !Hf.
  destruct (created_at y <=? created_at r); [done|].
  by rewrite fmap_cons, <- IH.
Qed.

Lemma order_by_fmap (f : Task → Task) l :
  (∀ x, created_at (f x) = created_at x) →
  order_by_created_at_desc (f <$> l) = f <$> order_by_created_at_desc l.
Proof.
  intros Hf. induction l as [|r l IH]; [done|].
  by rewrite fmap_cons, !order_by_cons, IH, insert_desc_fmap.
Qed.

Lemma sorted_fmap (f : Task → Task) l :
  (∀ x, created_at (f x) = created_at x) →
  Sorted newer_or_same l → Sorted newer_or_same (f <$> l).
Proof.
  intros Hf. induction 1 as [|y l Hs IH Hhd]; [constructor|].
  rewrite fmap_cons. constructor; [done|].
  destruct Hhd as [|z l' Hz]; [constructor|].
  rewrite fmap_cons. constructor. unfold newer_or_same in *. by rewrite !Hf.
Qed.

Lemma newer_or_same_trans : Relations_1.Transitive newer_or_same.
Proof. unfold newer_or_same. intros a b c Hab Hbc. lia. Qed.

Lemma sorted_filter (P : Task → Prop) `{∀ x, Decision (P x)} l :
  Sorted newer_or_same l → Sorted newer_or_same (filter P l).
Proof.
  intros Hs. apply Sorted_StronglySorted in Hs; [|apply newer_or_same_trans].
  apply StronglySorted_Sorted.
  induction Hs as [|y l Hs IH Hall]; [constructor|].
  rewrite filter_cons. case_decide; [|done].
  constructor; [done|].
  rewrite Forall_forall in Hall. apply Forall_forall. intros x Hx.
  apply list_elem_of_filter in Hx as [_ Hx]. by apply Hall.
Qed.

Lemma insert_desc_front r l :
  Forall (λ x, created_at x <= created_at r) l → insert_desc r l = r :: l.
Proof.
  destruct 1 as [|y l Hy _]; [done|]. simpl.
  destruct (created_at y <=? created_at r) eqn:Hle; [done|lia].
Qed.

Lemma filter_insert_desc_drop (P : Task → Prop) `{∀ x, Decision (P x)} r l :
  ¬ P r → filter P (insert_desc r l) = filter P l.
Proof.
  intros Hr. induction l as [|y l IH]; simpl.
  - by rewrite filter_cons_False.
  - destruct (created_at y <=? created_at r).
    + by rewrite filter_cons_False.
    + rewrite !(filter_cons _ y). by rewrite IH.
Qed.

Lemma filter_insert_desc_keep (P : Task → Prop) `{∀ x, Decision (P x)} r l :
  StronglySorted newer_or_same l →
  P r → filter P (insert_desc r l) = insert_desc r (filter P l).
Proof.
  intros Hs Hr. induction Hs as [|y l Hs IH Hall]; simpl.
  - by rewrite filter_cons_True.
  - destruct (created_at y <=? created_at r) eqn:Hle.
    + rewrite filter_cons_True by done. symmetry. apply insert_desc_front.
      apply Forall_forall. intros x Hx.
      apply list_elem_of_filter in Hx as [_ Hx].
      apply elem_of_cons in Hx as [->|Hx]; [lia|].
      rewrite Forall_forall in Hall. specialize (Hall x Hx).
      unfold newer_or_same in Hall. lia.
    + rewrite !(filter_cons _ y). case_decide; [|done].
      simpl. by rewrite Hle, IH.
Qed.

Lemma order_by_filter (P : Task → Prop) `{∀ x, Decision (P x)} l :
  order_by_created_at_desc (filter P l) = filter P (order_by_created_at_desc l).
Proof.
  induction l as [|r l IH]; [done|].
  rewrite filter_cons, order_by_cons. case_decide.
  - rewrite order_by_cons, IH. symmetry. apply filter_insert_desc_keep; [|done].
    apply Sorted_StronglySorted; [apply newer_or_same_trans|apply order_by_sorted].
  - by rewrite filter_insert_desc_drop.
Qed.

(** X21. An update does not move a task in the listing.  Without storage
    failure, listing after an update of a stored task gives the listing of
    before with the update applied to the rows of that id: the same ids in
    the same order.  This does not hinge on how ties are ordered: any order
    the [ORDER BY] clause allowed before is, with the update applied, an
    order it allows afterwards. *)
Theorem update_keeps_listing_order (c : Conn) (i : Z) (body : Body.t) :
  quiet 3 (outages c) →
  i ∈ id <$> table c →
  let c' := final (Routes.put_id i body c) in
  let before := order_by_created_at_desc (table c) in
  (Routes.get_root c).1 = Ok (res_json (JTasks before)) ∧
  (Routes.get_root c').1
    = Ok (res_json (JTasks (updated_row c i body <$> before))) ∧
  id <$> (updated_row c i body <$> before) = id <$> before ∧
  (∀ l, order_by_contract (table c) l →
        order_by_contract (table c') (updated_row c i body <$> l)).
Proof.
  intros Hq Hin c' before. subst c' before.
  assert (quiet 2 (outages c)) as Hq2 by (eapply quiet_le; [|exact Hq]; lia).
  assert (quiet 1 (outages c)) as Hq1 by (eapply quiet_le; [|exact Hq]; lia).
  assert (∀ x, created_at (updated_row c i body x) = created_at x) as Hkeep
    by (intros x; apply set_fields_created_at).
  rewrite (put_id_explicit i body c Hq2 Hin). unfold final. cbn [snd].
  rewrite !get_root_quiet; [|by apply (quiet_drop 1 2)|done].
  cbn [fst table]. split; [done|]. split; [by rewrite order_by_fmap|].
  split; [unfold updated_row; apply fmap_set_fields_ids|].
  intros l [Hperm Hsorted]. split; [by rewrite Hperm|by apply sorted_fmap].
Qed.

Lemma update_keeps_listing_order_witness :
  (Routes.get_root (final (Routes.put_id 1 (only_status completed)
                             (created milk_store (titled "Bread"))))).1
  = Ok (res_json (JTasks
      (updated_row (created milk_store (titled "Bread")) 1 (only_status completed)
         <$> order_by_created_at_desc (table (created milk_store (titled "Bread")))))).
Proof.
  destruct (update_keeps_listing_order (created milk_store (titled "Bread")) 1
              (only_status completed)) as (_ & Hafter & _).
  - exact I.
  - vm_compute. constructor.
  - exact Hafter.
Defined.

(** X22. A delete does not reorder the listing.  Without storage failure,
    listing after a delete gives the listing of before without the rows of
    that id, the others in the same order; and any order the [ORDER BY]
    clause allowed before is, with those rows removed, an order it allows
    afterwards. *)
Theorem delete_keeps_listing_order (c : Conn) (i : Z) :
  quiet 2 (outages c) →
  let c' := final (Routes.delete_id i c) in
  let before := order_by_created_at_desc (table c) in
  (Routes.get_root c).1 = Ok (res_json (JTasks before)) ∧
  (Routes.get_root c').1
    = Ok (res_json (JTasks (filter (λ r, ¬ has_id i r) before))) ∧
  filter (λ r, ¬ has_id i r) before `sublist_of` before ∧
  (∀ l, order_by_contract (table c) l →
        order_by_contract (table c') (filter (λ r, ¬ has_id i r) l)).
Proof.
  intros Hq c' before. subst c' before.
  assert (quiet 1 (outages c)) as Hq1 by (eapply quiet_le; [|exact Hq]; lia).
  rewrite delete_id_quiet by done. unfold final. cbn [snd].
  rewrite !get_root_quiet; [|by apply quiet_tail|done].
  cbn [fst table]. split; [done|]. split; [by rewrite order_by_filter|].
  split; [apply sublist_filter|].
  intros l [Hperm Hsorted]. split; [by rewrite Hperm|by apply sorted_filter].
Qed.

Lemma delete_keeps_listing_order_witness :
  (Routes.get_root (final (Routes.delete_id 1 (created milk_store (titled "Bread"))))).1
  = Ok (res_json (JTasks [pending_row 2 "Bread" 0])).
Proof.
  destruct (delete_keeps_listing_order (created milk_store (titled "Bread")) 1 I)
    as (_ & Hafter & _).
  rewrite Hafter. by vm_compute.
Defined.

(** ** The page against a reload *)





(** ** Two actions fired from one render *)

Lemma status_change_in_render render i s w :
  offline (net w) = false →
  outages (backend (net w)) = [] →
  i ∈ id <$> table (backend (net w)) →
  ∃ u,
    tasks (home (final (Page.handleStatusChange render i s w)))
      = (λ task, if decide (id task = i) then u else task) <$> tasks render ∧
    table (backend (net (final (Page.handleStatusChange render i s w))))
      = updated_row (backend (net w)) i (only_status s) <$> table (backend (net w)) ∧
    offline (net (final (Page.handleStatusChange render i s w))) = false ∧
    outages (backend (net (final (Page.handleStatusChange render i s w)))) = [].
Proof.
  intros Hon Ho Hin. rewrite handleStatusChange_run.
  assert (quiet 2 (outages (backend (net w)))) as Hq
    by (rewrite Ho; apply quiet_nil).
  destruct (updateTask_explicit i (only_status s) (net w) Hon Hq Hin)
    as (r0 & _ & _ & ->).
  unfold final. simpl. rewrite Hon, Ho. by eexists.
Qed.

Lemma handleStatusChange_net render i s w :
  net (final (Page.handleStatusChange render i s w))
  = (taskService.updateTask i (only_status s) (net w)).2.
Proof.
  rewrite handleStatusChange_run.
  by destruct (taskService.updateTask i (only_status s) (net w)) as [[u|e] n'].
Qed.

(** X24. Two status changes fired from one render overwrite each other.
    On a page in step with the server, let the user change the status of
    task [i] and then of another task [j] before React has rendered the
    first change (both handlers are closures of the same render and call
    [setTasks] on its [tasks]).  Both requests reach the server, which ends
    with task [i] in the new status; but the second [setTasks] puts back the
    old task [i], so the page shows a task that is no longer stored and is
    out of step with the server.  With a render between the two changes the
    page stays in step. *)
Theorem same_render_changes_overwrite (w : World) (i j : Z) (s : TaskStatus)
    (t : Task) (now1 now2 : Z) :
  synced w →
  i ≠ j →
  t ∈ tasks (home w) →
  id t = i →
  j ∈ id <$> tasks (home w) →
  status t ≠ Some (status_text s) →
  let change k at_ :=
    Act {| step_at := at_; answer := true; event := CardStatusChange k s |} in
  let together := world (play [change i now1; change j now2] (painted w)) in
  let in_turn := world (play [change i now1; Paint; change j now2] (painted w)) in
  wire (net together)
    = wire (net w) ++ [PUT_task i (only_status s); PUT_task j (only_status s)] ∧
  t ∈ tasks (home together) ∧
  (∀ r, r ∈ table (backend (net together)) → id r = i →
        status r = Some (status_text s)) ∧
  ¬ synced together ∧
  synced in_turn.
Proof.
  intros Hsync Hij Ht Hid Hj Hstatus change together in_turn.
  pose proof Hsync as (Hon & Ho & Hok & Hperm).
  assert (i ∈ id <$> table (backend (net w))) as Hi.
  { rewrite <- Hperm, <- Hid. by apply list_elem_of_fmap_2. }
  assert (j ∈ id <$> table (backend (net w))) as Hj' by by rewrite <- Hperm.
  set (w1 := final (Page.handleStatusChange (home w) i s (tick now1 w))).
  assert (together
          = final (Page.handleStatusChange (home w) j s (tick now2 w1)))
    as Htogether by done.
  destruct (status_change_in_render (home w) i s (tick now1 w) Hon Ho Hi)
    as (u1 & Htasks1 & Htable1 & Hon1 & Ho1).
  fold w1 in Htasks1, Htable1, Hon1, Ho1.
  assert (j ∈ id <$> table (backend (net (tick now2 w1)))) as Hj1.
  { simpl. rewrite Htable1. unfold updated_row.
    by rewrite fmap_set_fields_ids. }
  destruct (status_change_in_render (home w) j s (tick now2 w1) Hon1 Ho1 Hj1)
    as (u2 & Htasks2 & Htable2 & Hon2 & Ho2).
  rewrite <- Htogether in Htasks2, Htable2.
  assert (t ∈ tasks (home together)) as Hstale.
  { rewrite Htasks2. apply list_elem_of_fmap. exists t. split; [|done].
    rewrite decide_False; [done|]. by rewrite Hid. }
  assert (∀ r, r ∈ table (backend (net together)) → id r = i →
               status r = Some (status_text s)) as Hserver.
  { intros r Hr Hidr. rewrite Htable2 in Hr.
    apply list_elem_of_fmap in Hr as (r1 & -> & Hr1).
    unfold updated_row in Hidr. rewrite set_fields_id in Hidr.
    unfold updated_row at 1. rewrite set_fields_miss by (by rewrite Hidr).
    simpl in Hr1. rewrite Htable1 in Hr1.
    apply list_elem_of_fmap in Hr1 as (r0 & -> & Hr0).
    unfold updated_row in Hidr. rewrite set_fields_id in Hidr.
    by destruct (updated_row_fields (tick now1 w).(net).(backend) i (only_status s)
                   r0 Hidr) as (_ & _ & _ & ->). }
  split; [|split; [done|split; [done|split]]].
  - rewrite Htogether, handleStatusChange_net, updateTask_wire, tick_wire.
    unfold w1. rewrite handleStatusChange_net, updateTask_wire, tick_wire.
    by rewrite <- app_assoc.
  - intros (_ & _ & _ & Hperm2). apply Hstatus.
    apply (Hserver t); [|done]. by rewrite <- Hperm2.
  - subst in_turn. apply (sync_play _ true (painted w)); [done|done|].
    simpl. done.
Qed.

Lemma same_render_changes_overwrite_witness :
  pending_row 1 "Buy milk" 0
    ∈ tasks (home (world (play
        [ Act {| step_at := 3; answer := true; event := CardStatusChange 1 completed |};
          Act {| step_at := 4; answer := true; event := CardStatusChange 2 completed |} ]
        (painted two_task_world)))) ∧
  status <$> table (backend (net (world (play
        [ Act {| step_at := 3; answer := true; event := CardStatusChange 1 completed |};
          Act {| step_at := 4; answer := true; event := CardStatusChange 2 completed |} ]
        (painted two_task_world)))))
    = [Some "completed"; Some "completed"].
Proof.
  destruct (same_render_changes_overwrite two_task_world 1 2 completed
              (pending_row 1 "Buy milk" 0) 3 4) as (_ & Hstale & _).
  - split; [done|]. split; [done|]. split.
    + do 2 apply created_storage_ok. apply fresh_storage_ok.
    + symmetry. apply order_by_perm.
  - done.
  - vm_compute. repeat constructor.
  - done.
  - vm_compute. repeat constructor.
  - discriminate.
  - split; [exact Hstale|]. by vm_compute.
Defined.
